(** * abb: composable memory allocators

    A shallow embedding of the allocator toolkit (block protocol, range
    raiders, primitive allocators and compositors) and the verification of
    its documented properties against the code.

    Conventions of the embedding.
    - [size_t] and pointers are 64-bit words, modelled as [Z] with the
      wrap-around written out ([to_size_t]).  The null pointer is [0].
    - A member function that mutates [*this] takes the object and returns
      the updated object.  Every member function runs in the monad [M]: it
      threads the process-wide [world] (the system heap and the words the
      allocators write into freed memory) and may fault.  A fault stands
      for a failed [assert] or for undefined behaviour (an array read out
      of bounds, a store through the null pointer); the loops around an
      atomic exchange also fault at a bound of rounds that a call running
      alone never meets.
    - Moving an object is the identity on its value, and the destructor
      of a moved-from object does nothing.
    - Template parameters are parameters of the corresponding type;
      static members are members of a type class indexed by that type.
    - Only static sizes and ranges fixed at construction are modelled for
      the buffer providers; the dynamic-size constructors are left out. *)

From Stdlib Require Import ZArith Bool List Lia.
From stdpp Require Import gmap list.
Local Open Scope Z_scope.

Module abb.

(** ** Machine words *)

Definition size_t_max : Z := 2 ^ 64 - 1.

(** Reduction of an integer to a [size_t] (also used for addresses). *)
Definition to_size_t (z : Z) : Z := z mod 2 ^ 64.

(** ** The world shared by every allocator of a process *)

(** Calls into the C library, as the allocators make them. *)
Inductive libc_call : Type :=
| call_malloc (size result : Z)
| call_free (p : Z)
| call_realloc (p size result : Z)
| call_memcpy (dst src n : Z).

(** The system heap is an external collaborator: all that is known is
    that [malloc] and [realloc] answer with a pointer or with null.  The
    world therefore carries the answers the heap is going to give
    ([answers], null once exhausted), the calls made so far ([calls],
    latest first) and the pointer-sized words the allocators have written
    into memory ([memory], by address). *)
Record world : Type := World {
  answers : list Z;
  calls : list libc_call;
  memory : gmap Z Z
}.

Definition M (X : Type) : Type := world -> option (X * world).

#[global] Instance M_ret : MRet M := fun X (x : X) w => Some (x, w).

#[global] Instance M_bind : MBind M :=
  fun X Y (k : X -> M Y) (m : M X) w =>
    match m w with
    | Some (x, w') => k x w'
    | None => None
    end.

Definition fault {X : Type} : M X := fun _ => None.

(** [assert(c)]: aborts the program when [c] is false. *)
Definition assert (c : bool) : M unit := if c then mret tt else fault.

Definition next_answer : M Z :=
  fun w => match answers w with
           | [] => Some (0, w)
           | r :: rest => Some (r, World rest (calls w) (memory w))
           end.

Definition record_call (c : libc_call) : M unit :=
  fun w => Some (tt, World (answers w) (c :: calls w) (memory w)).

Definition malloc (size : Z) : M Z :=
  r ← next_answer; record_call (call_malloc size r);; mret r.

Definition free (p : Z) : M unit := record_call (call_free p).

Definition realloc (p size : Z) : M Z :=
  r ← next_answer; record_call (call_realloc p size r);; mret r.

(** The bytes of user data are not part of [memory]; a [memcpy] is
    recorded as a call. *)
Definition memcpy (dst src n : Z) : M unit := record_call (call_memcpy dst src n).

(** [*p = v] for a pointer-sized word. *)
Definition store (p v : Z) : M unit :=
  fun w => if p =? 0 then None
           else Some (tt, World (answers w) (calls w) (<[p := v]> (memory w))).

(** [*p] for a pointer-sized word; reading a word nobody wrote faults. *)
Definition load (p : Z) : M Z :=
  fun w => match memory w !! p with
           | Some v => Some (v, w)
           | None => None
           end.

(** [a[i]] on a C array held as a list: out of bounds is a fault. *)
Definition array_at {X : Type} (a : list X) (i : Z) : M X :=
  if (0 <=? i) && (i <? Z.of_nat (length a))
  then match a !! Z.to_nat i with
       | Some x => mret x
       | None => fault
       end
  else fault.

(** ** units.hpp *)

Module units.
Definition _B (N : Z) : Z := N.
Definition _KiB (N : Z) : Z := to_size_t (N * 1024).
End units.

(** ** block.hpp *)

Record block : Type := Block { ptr : Z; size : Z }.

Definition nullblock : block := Block 0 0.

Definition round_to_alignment (size alignment : Z) : Z :=
  to_size_t (size + (if size mod alignment =? 0
                     then 0
                     else to_size_t (alignment - size mod alignment))).

Definition is_aligned (size alignment : Z) : bool := size mod alignment =? 0.

(** ** bit_helpers.hpp *)

(** [details::last_bit_set]: [v ? 1 + last_bit_set(v >> 1) : 0].  The
    recursion shifts a 64-bit word to zero in at most 64 steps, which is
    the fuel [details.last_bit_set] gives it. *)
Fixpoint last_bit_set_rec (fuel : nat) (v : Z) : Z :=
  match fuel with
  | O => 0
  | S fuel' =>
      if v =? 0 then 0
      else to_size_t (1 + last_bit_set_rec fuel' (Z.shiftr v 1))
  end.

Module details.
Definition last_bit_set (v : Z) : Z := last_bit_set_rec 64 v.
End details.

Definition is_pow2 (v : Z) : bool :=
  (0 <? v) && (Z.land v (to_size_t (v - 1)) =? 0).

Definition last_bit_set (v : Z) : Z :=
  if v =? 0 then 0 else to_size_t (details.last_bit_set v - 1).

Definition next_pow2 (v : Z) : Z :=
  if is_pow2 v then v else to_size_t (Z.shiftl 1 (to_size_t (last_bit_set v + 1))).

(** ** range_helpers.hpp *)

Definition dynamic_value : Z := size_t_max.
Definition invalid_index : Z := size_t_max.

Definition is_dynamic_value (v : Z) : bool := v =? dynamic_value.

Module range_t.
Section range_t.
Variables _Min _Max : Z.

Definition min : Z := _Min.
Definition max : Z := _Max.

Definition is_dynamic : bool := (_Min =? dynamic_value) && (_Max =? dynamic_value).

Definition is_valid : bool := _Min <=? _Max.

Definition is_strictly_in_range (val : Z) : bool := (_Min <? val) && (val <? _Max).

Definition is_in_range (val : Z) : bool := (_Min <=? val) && (val <=? _Max).

End range_t.
End range_t.

(** What the bucketizer asks of its [_RangeRaider] parameter. *)
Class RangeRaider (R : Type) : Type := {
  raider_min : Z;
  raider_max : Z;
  num_steps : Z;
  step_index : Z -> Z;
  step_size : Z -> Z
}.
Arguments raider_min R {_}.
Arguments raider_max R {_}.
Arguments num_steps R {_}.
Arguments step_index R {_} _.
Arguments step_size R {_} _.

Module linear_range_raider.

(** The type [linear_range_raider<_Min, _Max, _Step>]: it has static
    members only. *)
Inductive t (_Min _Max _Step : Z) : Type := raider.

Section linear_range_raider.
Variables _Min _Max _Step : Z.

(** The two [static_assert]s of the class. *)
Definition static_asserts : bool :=
  (0 <? to_size_t (_Max - _Min)) && (to_size_t (_Max - _Min) mod _Step =? 0).

Definition num_steps : Z := to_size_t (_Max - _Min) / _Step.

Definition step_index (val : Z) : Z :=
  if range_t.is_in_range _Min _Max val
  then to_size_t (val - _Min) / _Step
  else invalid_index.

Definition step_size (_ : Z) : Z := _Step.

#[global] Instance raider_of : RangeRaider (t _Min _Max _Step) := {|
  raider_min := range_t.min _Min;
  raider_max := range_t.max _Max;
  abb.num_steps := num_steps;
  abb.step_index := step_index;
  abb.step_size := step_size
|}.

End linear_range_raider.
End linear_range_raider.

Module pow2_range_raider.

(** The type [pow2_range_raider<_Min, _Max>]. *)
Inductive t (_Min _Max : Z) : Type := raider.

Section pow2_range_raider.
Variables _Min _Max : Z.

Definition static_asserts : bool := is_pow2 _Min && is_pow2 _Max.

Definition pow2bit_min_index : Z := last_bit_set _Min.
Definition pow2bit_max_index : Z := last_bit_set _Max.
Definition num_steps : Z := to_size_t (pow2bit_max_index - pow2bit_min_index).

Definition step_index (val : Z) : Z :=
  to_size_t (to_size_t (last_bit_set (next_pow2 val) - pow2bit_min_index) - 1).

Definition step_size (stepIndex : Z) : Z :=
  to_size_t (Z.shiftl 1 (to_size_t (pow2bit_min_index + stepIndex))).

#[global] Instance raider_of : RangeRaider (t _Min _Max) := {|
  raider_min := range_t.min _Min;
  raider_max := range_t.max _Max;
  abb.num_steps := num_steps;
  abb.step_index := step_index;
  abb.step_size := step_size
|}.

End pow2_range_raider.
End pow2_range_raider.

(** ** The allocator contract

    The compositors are templates over their inner allocators and use
    whichever members they need; each group of members is a class of its
    own, so that an allocator provides exactly the members its source
    declares. *)

Class Allocator (A : Type) : Type := {
  alignment : Z;
  allocate : A -> Z -> M (block * A);
  deallocate : A -> block -> M A
}.
Arguments alignment A {_}.

(** [bool reallocate(block &b, size_t newSize)]: the result carries the
    block as the call leaves it. *)
Class Reallocate (A : Type) : Type :=
  reallocate : A -> block -> Z -> M (bool * block * A).

Class Owns (A : Type) : Type :=
  owns : A -> block -> bool.

Class DeallocateAll (A : Type) : Type :=
  deallocateAll : A -> M A.

Class SupportsTruncatedDeallocation (A : Type) : Type :=
  supports_truncated_deallocation : bool.
Arguments supports_truncated_deallocation A {_}.

(** The default constructor [A()] and the destructor [~A()]. *)
Class DefaultConstructible (A : Type) : Type :=
  construct : M A.
Arguments construct A {_}.

Class Destructible (A : Type) : Type :=
  destroy : A -> M unit.

Class SetMinMax (A : Type) : Type :=
  setMinMax : A -> Z -> Z -> M A.

(** ** reallocation_helpers.hpp *)

Section reallocation_helpers.
Context {A : Type} `{!Allocator A}.

Definition handle_common_reallocation_cases
    (allocator : A) (b : block) (newSize : Z) : M (bool * block * A) :=
  (* Nothing to do if we are reallocating to the same size *)
  if size b =? round_to_alignment newSize (alignment A)
  then mret (true, b, allocator)
  (* If the new size is 0 it is equivalent to deallocating the block *)
  else if newSize =? 0
  then allocator ← deallocate allocator b; mret (true, b, allocator)
  (* The old block is empty, same as allocating a new block *)
  else if ptr b =? 0
  then '(b, allocator) ← allocate allocator newSize; mret (true, b, allocator)
  else mret (false, b, allocator).

End reallocation_helpers.

Definition copy_block (dstBlock srcBlock : block) : M unit :=
  memcpy (ptr dstBlock) (ptr srcBlock) (Z.min (size dstBlock) (size srcBlock)).

(** [reallocate_and_copy(fromAllocator, toAllocator, b, newSize)].  The two
    references may name one object, or two parts of one object; [S] is the
    object that holds both, [to_allocate] is [toAllocator.allocate] and
    [from_deallocate] is [fromAllocator.deallocate], each acting on [S]. *)
Definition reallocate_and_copy {S : Type}
    (from_deallocate : S -> block -> M S)
    (to_allocate : S -> Z -> M (block * S))
    (s : S) (b : block) (newSize : Z) : M (bool * block * S) :=
  '(newBlock, s) ← to_allocate s newSize;
  if ptr newBlock =? 0
  then mret (false, b, s)
  else
    copy_block newBlock b;;
    s ← from_deallocate s b;
    mret (true, newBlock, s).

(** ** null_allocator.hpp *)

Module null_allocator.

Inductive t : Type := null_allocator.

Definition alignment : Z := units._B 8.

Definition allocate (a : t) (size : Z) : M (block * t) :=
  mret (Block 0 0, a).

Definition deallocate (a : t) (b : block) : M t :=
  assert (ptr b =? 0);; mret a.

Definition reallocate (a : t) (b : block) (newSize : Z) : M (bool * block * t) :=
  mret (ptr b =? 0, b, a).

Definition owns (a : t) (b : block) : bool := ptr b =? 0.

#[global] Instance allocator : Allocator t := {|
  abb.alignment := alignment;
  abb.allocate := allocate;
  abb.deallocate := deallocate
|}.
#[global] Instance reallocator : Reallocate t := reallocate.
#[global] Instance owner : Owns t := owns.
#[global] Instance constructible : DefaultConstructible t :=
  (mret null_allocator : M t).
#[global] Instance destructible : Destructible t := fun _ => (mret tt : M unit).

End null_allocator.

(** ** mallocator.hpp *)

Module mallocator.

Inductive t : Type := mallocator.

Definition alignment : Z := units._B 8.
Definition supports_truncated_deallocation : bool := false.

Definition allocate (a : t) (size : Z) : M (block * t) :=
  p ← malloc size; mret (Block p size, a).

Definition deallocate (a : t) (b : block) : M t :=
  free (ptr b);; mret a.

#[global] Instance allocator : Allocator t := {|
  abb.alignment := alignment;
  abb.allocate := allocate;
  abb.deallocate := deallocate
|}.

Definition reallocate (a : t) (b : block) (newSize : Z) : M (bool * block * t) :=
  '(done, b, a) ← handle_common_reallocation_cases a b newSize;
  if done : bool then mret (true, b, a)
  else
    p ← realloc (ptr b) newSize;
    let newBlock := Block p newSize in
    if negb (ptr newBlock =? 0) then mret (true, newBlock, a)
    else mret (false, b, a).

#[global] Instance reallocator : Reallocate t := reallocate.
#[global] Instance truncation : SupportsTruncatedDeallocation t :=
  supports_truncated_deallocation.
#[global] Instance constructible : DefaultConstructible t :=
  (mret mallocator : M t).
#[global] Instance destructible : Destructible t := fun _ => (mret tt : M unit).

End mallocator.

(** ** buffer_provider.hpp *)

Inductive BufferInitMode : Type :=
| InitOnFirstAllocation
| InitOnConstruct.

Definition is_lazy_init (initMode : BufferInitMode) : bool :=
  match initMode with
  | InitOnFirstAllocation => true
  | InitOnConstruct => false
  end.

(** What the linear allocator asks of its [_BufferProvider] base. *)
Class BufferProvider (P : Type) : Type := {
  buffer_ : P -> Z;
  buffer_size : P -> Z;
  init : P -> Z -> M (P * Z)
}.

Module stack_buffer_provider.

(** [buffer_] is the address of the array held inside the provider; the
    object lives where its owner put it, so the address is part of the
    value. *)
Record t (_BufferSize _Alignment : Z) : Type := Provider { buffer_ : Z }.
Arguments Provider {_ _} _.
Arguments buffer_ {_ _} _.

Section stack_buffer_provider.
Context {_BufferSize _Alignment : Z}.
Abbreviation t := (t _BufferSize _Alignment).

Definition init (bp : t) (ptr : Z) : M (t * Z) := mret (bp, ptr).

Definition size (bp : t) : Z := _BufferSize.

#[global] Instance provider : BufferProvider t := {|
  abb.buffer_ := buffer_;
  abb.buffer_size := size;
  abb.init := init
|}.

(** Nothing is acquired or released with the provider. *)
#[global] Instance destructible : Destructible t := fun _ => (mret tt : M unit).

End stack_buffer_provider.
End stack_buffer_provider.

Module heap_buffer_provider.

Record t (_BufferSize _Alignment : Z) (_InitMode : BufferInitMode) (_Allocator : Type) : Type :=
  Provider { base : _Allocator; buffer_ : Z }.
Arguments Provider {_ _ _ _} _ _.
Arguments base {_ _ _ _} _.
Arguments buffer_ {_ _ _ _} _.

Section heap_buffer_provider.
Context {_BufferSize _Alignment : Z} {_InitMode : BufferInitMode}.
Context {_Allocator : Type} `{!Allocator _Allocator}.
Abbreviation t := (t _BufferSize _Alignment _InitMode _Allocator).

Definition size (bp : t) : Z := _BufferSize.

(** [heap_buffer_provider()] *)
Definition construct `{!DefaultConstructible _Allocator} : M t :=
  a ← abb.construct _Allocator;
  if is_lazy_init _InitMode || is_dynamic_value _BufferSize
  then mret (Provider a 0)
  else '(b, a) ← allocate a _BufferSize; mret (Provider a (ptr b)).

(** [~heap_buffer_provider()], then the destructor of the base. *)
Definition destroy `{!Destructible _Allocator} (bp : t) : M unit :=
  a ← (if negb (buffer_ bp =? 0)
       then deallocate (base bp) (Block (buffer_ bp) (size bp))
       else mret (base bp));
  abb.destroy a.

Definition init (bp : t) (ptr : Z) : M (t * Z) :=
  if is_lazy_init _InitMode && (buffer_ bp =? 0)
  then
    assert (negb (is_dynamic_value _BufferSize));;
    '(b, a) ← allocate (base bp) (size bp);
    mret (Provider a (abb.ptr b), abb.ptr b)
  else mret (bp, ptr).

#[global] Instance provider : BufferProvider t := {|
  abb.buffer_ := buffer_;
  abb.buffer_size := size;
  abb.init := init
|}.
#[global] Instance constructible `{!DefaultConstructible _Allocator} :
  DefaultConstructible t := construct.
#[global] Instance destructible `{!Destructible _Allocator} : Destructible t := destroy.

End heap_buffer_provider.
End heap_buffer_provider.

(** ** linear_allocator.hpp *)

Module linear_allocator.

(** [linear_allocator<_BufferSize, _Alignment, _InitMode, _Allocator,
    _BufferProvider>] derives from its buffer provider [P], which takes
    the first four parameters. *)
Record t (_Alignment : Z) (P : Type) : Type := Linear { provider : P; p_ : Z }.
Arguments Linear {_ _} _ _.
Arguments provider {_ _} _.
Arguments p_ {_ _} _.

Section linear_allocator.
Context {_Alignment : Z} {P : Type} `{!BufferProvider P}.
Abbreviation t := (t _Alignment P).

Definition alignment : Z := _Alignment.
Definition supports_truncated_deallocation : bool := true.

(** [linear_allocator()] *)
Definition construct `{!DefaultConstructible P} : M t :=
  bp ← abb.construct P; mret (Linear bp (buffer_ bp)).

Definition align (size : Z) : Z := round_to_alignment size alignment.

Definition begin (la : t) : Z := buffer_ (provider la).

Definition end_ (la : t) : Z :=
  to_size_t (buffer_ (provider la) + buffer_size (provider la)).

Definition hasEnoughSpace (la : t) (alignedSize : Z) : bool :=
  to_size_t (p_ la + alignedSize) <=? end_ la.

Definition isLastAllocatedBlock (la : t) (b : block) : bool :=
  to_size_t (ptr b + size b) =? p_ la.

Definition allocate (la : t) (size : Z) : M (block * t) :=
  let alignedSize := align size in
  if negb (hasEnoughSpace la alignedSize)
  then mret (nullblock, la)            (* Out of memory *)
  else
    (* Lazy init *)
    '(bp, p) ← init (provider la) (p_ la);
    let b := Block p alignedSize in
    mret (b, Linear bp (to_size_t (p + alignedSize))).

Definition deallocate (la : t) (b : block) : M t :=
  (* We can only deallocate the last allocated block *)
  if isLastAllocatedBlock la b
  then mret (Linear (provider la) (ptr b))     (* Rewind the stack *)
  else mret la.

#[global] Instance allocator : Allocator t := {|
  abb.alignment := alignment;
  abb.allocate := allocate;
  abb.deallocate := deallocate
|}.

Definition reallocate (la : t) (b : block) (newSize : Z) : M (bool * block * t) :=
  '(done, b, la) ← handle_common_reallocation_cases la b newSize;
  if done : bool then mret (true, b, la)
  else
    let alignedNewSize := align newSize in
    if isLastAllocatedBlock la b
    then
      if to_size_t (ptr b + alignedNewSize) <=? end_ la
      then mret (true, b, Linear (provider la) (to_size_t (ptr b + alignedNewSize)))
      else mret (false, b, la)         (* Out of memory *)
    else if size b >=? alignedNewSize
    then mret (true, b, la)
    else reallocate_and_copy deallocate allocate la b newSize.

Definition owns (la : t) (b : block) : bool :=
  (begin la <=? ptr b) && (ptr b <? end_ la).

Definition deallocateAll (la : t) : M t :=
  mret (Linear (provider la) (buffer_ (provider la))).

#[global] Instance reallocator : Reallocate t := reallocate.
#[global] Instance owner : Owns t := owns.
#[global] Instance arena : DeallocateAll t := deallocateAll.
#[global] Instance truncation : SupportsTruncatedDeallocation t :=
  supports_truncated_deallocation.
#[global] Instance constructible `{!DefaultConstructible P} : DefaultConstructible t :=
  construct.
#[global] Instance destructible `{!Destructible P} : Destructible t :=
  fun la => destroy (provider la).

End linear_allocator.

Arguments alignment _Alignment : clear implicits.
Arguments align _Alignment size : clear implicits.

End linear_allocator.

(** ** concurrent_linear_allocator.hpp

    The cursor is a [std::atomic<uint8_t*>].  A member function is a
    sequence of atomic accesses to it ([load], [compare_exchange_strong])
    and the embedding runs one call at a time: between the accesses of a
    call no other thread touches the cursor.  These are the executions in
    which the calls of all threads follow one another; the interleavings
    of accesses of calls in flight together are outside the embedding. *)

Module concurrent_linear_allocator.

Record t (_Alignment : Z) (P : Type) : Type := Concurrent { provider : P; p_ : Z }.
Arguments Concurrent {_ _} _ _.
Arguments provider {_ _} _.
Arguments p_ {_ _} _.

(** How often a loop around [compare_exchange_strong] may go round in the
    embedding.  A call that runs alone leaves each loop in its first
    round, so that the bound is never met. *)
Definition rounds : nat := 8.

Section concurrent_linear_allocator.
Context {_Alignment : Z} {P : Type} `{!BufferProvider P}.
Abbreviation t := (t _Alignment P).

Definition alignment : Z := _Alignment.

(** [p_.load()] *)
Definition load (ca : t) : Z := p_ ca.

(** [p_.compare_exchange_strong(expected, desired)]: whether the cursor
    held [expected]; the value [expected] is left with; the allocator. *)
Definition compare_exchange_strong (ca : t) (expected desired : Z) : bool * Z * t :=
  if p_ ca =? expected
  then (true, expected, Concurrent (provider ca) desired)
  else (false, p_ ca, ca).

(** [concurrent_linear_allocator()] *)
Definition construct `{!DefaultConstructible P} : M t :=
  bp ← abb.construct P; mret (Concurrent bp (buffer_ bp)).

Definition align (size : Z) : Z := round_to_alignment size alignment.

Definition begin (ca : t) : Z := buffer_ (provider ca).

Definition end_ (ca : t) : Z :=
  to_size_t (buffer_ (provider ca) + buffer_size (provider ca)).

Definition hasEnoughSpace (ca : t) (p alignedSize : Z) : bool :=
  to_size_t (p + alignedSize) <=? end_ ca.

Definition isLastAllocatedBlock (b : block) (p : Z) : bool :=
  to_size_t (ptr b + size b) =? p.

(** [while (hasEnoughSpace(p, alignedSize)) { ... }] *)
Fixpoint allocate_loop (round : nat) (ca : t) (p alignedSize : Z) : M (block * t) :=
  match round with
  | O => fault
  | S round' =>
      if hasEnoughSpace ca p alignedSize
      then
        let '(exchanged, p', ca') :=
          compare_exchange_strong ca p (to_size_t (p + alignedSize)) in
        if exchanged : bool
        then mret (Block p alignedSize, ca')
        else allocate_loop round' ca' p' alignedSize
      else mret (nullblock, ca)       (* Out of memory *)
  end.

Definition allocate (ca : t) (size : Z) : M (block * t) :=
  let alignedSize := align size in
  let p := load ca in
  allocate_loop rounds ca p alignedSize.

(** [while (isLastAllocatedBlock(b, p)) { ... }] of [deallocate] *)
Fixpoint deallocate_loop (round : nat) (ca : t) (b : block) (p : Z) : M t :=
  match round with
  | O => fault
  | S round' =>
      if isLastAllocatedBlock b p
      then
        (* Rewind the stack *)
        let '(exchanged, p', ca') := compare_exchange_strong ca p (ptr b) in
        if exchanged : bool
        then mret ca'
        else deallocate_loop round' ca' b p'
      else mret ca
  end.

Definition deallocate (ca : t) (b : block) : M t :=
  (* We can only deallocate the last allocated block *)
  let p := load ca in
  deallocate_loop rounds ca b p.

#[global] Instance allocator : Allocator t := {|
  abb.alignment := alignment;
  abb.allocate := allocate;
  abb.deallocate := deallocate
|}.

(** [while (isLastAllocatedBlock(b, p)) { ... }] of [reallocate]: the
    answer of the call if the loop returns one, [None] if the loop is
    left because the block is not the last one. *)
Fixpoint reallocate_loop (round : nat) (ca : t) (b : block) (p alignedNewSize : Z)
    : M (option bool * t) :=
  match round with
  | O => fault
  | S round' =>
      if isLastAllocatedBlock b p
      then
        (* Check if there's enough memory left *)
        if to_size_t (ptr b + alignedNewSize) <=? end_ ca
        then
          let '(exchanged, p', ca') :=
            compare_exchange_strong ca p (to_size_t (ptr b + alignedNewSize)) in
          if exchanged : bool
          then mret (Some true, ca')
          else reallocate_loop round' ca' b p' alignedNewSize
        else mret (Some false, ca)     (* Out of memory *)
      else mret (None, ca)
  end.

Definition reallocate (ca : t) (b : block) (newSize : Z) : M (bool * block * t) :=
  '(done, b, ca) ← handle_common_reallocation_cases ca b newSize;
  if done : bool then mret (true, b, ca)
  else
    let alignedNewSize := align newSize in
    let p := load ca in
    '(answer, ca) ← reallocate_loop rounds ca b p alignedNewSize;
    match answer with
    | Some ok => mret (ok, b, ca)
    | None =>
        if size b >=? alignedNewSize
        then mret (true, b, ca)
        else reallocate_and_copy deallocate allocate ca b newSize
    end.

Definition owns (ca : t) (b : block) : bool :=
  (begin ca <=? ptr b) && (ptr b <? end_ ca).

Definition deallocateAll (ca : t) : M t :=
  mret (Concurrent (provider ca) (buffer_ (provider ca))).

#[global] Instance reallocator : Reallocate t := reallocate.
#[global] Instance owner : Owns t := owns.
#[global] Instance arena : DeallocateAll t := deallocateAll.
#[global] Instance constructible `{!DefaultConstructible P} : DefaultConstructible t :=
  construct.
#[global] Instance destructible `{!Destructible P} : Destructible t :=
  fun ca => destroy (provider ca).

End concurrent_linear_allocator.

Arguments alignment _Alignment : clear implicits.
Arguments align _Alignment size : clear implicits.

End concurrent_linear_allocator.

(** [stack_linear_allocator<_BufferSize, _Alignment>] and
    [heap_linear_allocator<_BufferSize, _Alignment, _InitMode, _Allocator>] *)
Definition stack_linear_allocator (_BufferSize _Alignment : Z) : Type :=
  linear_allocator.t _Alignment (stack_buffer_provider.t _BufferSize _Alignment).

Definition heap_linear_allocator (_BufferSize _Alignment : Z)
    (_InitMode : BufferInitMode) (_Allocator : Type) : Type :=
  linear_allocator.t _Alignment
    (heap_buffer_provider.t _BufferSize _Alignment _InitMode _Allocator).

(** [concurrent_stack_linear_allocator<_BufferSize, _Alignment>] and
    [concurrent_heap_linear_allocator<_BufferSize, _Alignment, _Allocator>] *)
Definition concurrent_stack_linear_allocator (_BufferSize _Alignment : Z) : Type :=
  concurrent_linear_allocator.t _Alignment (stack_buffer_provider.t _BufferSize _Alignment).

Definition concurrent_heap_linear_allocator (_BufferSize _Alignment : Z)
    (_Allocator : Type) : Type :=
  concurrent_linear_allocator.t _Alignment
    (heap_buffer_provider.t _BufferSize _Alignment InitOnConstruct _Allocator).

(** ** freelist.hpp *)

Module freelist.

(** [freelist<_Allocator, _Range, _MaxNodeCount, _BatchedAllocations>]
    derives from [_Allocator] ([base]) and from [_Range] (the bounds
    [min_size], [max_size], constants for a static range and set by
    [setMinMax] for a dynamic one).  The list itself lives in the freed
    blocks: [pHead_] is the address of the first node and the word stored
    at a node's address is its [pNext_]. *)
Record t (_Allocator : Type) (_MaxNodeCount _BatchedAllocations : Z) : Type := Freelist {
  base : _Allocator;
  min_size : Z;
  max_size : Z;
  pHead_ : Z;
  currentNodeCount_ : Z
}.
Arguments Freelist {_ _ _} _ _ _ _ _.
Arguments base {_ _ _} _.
Arguments min_size {_ _ _} _.
Arguments max_size {_ _ _} _.
Arguments pHead_ {_ _ _} _.
Arguments currentNodeCount_ {_ _ _} _.

(** [sizeof(node)]: one pointer. *)
Definition sizeof_node : Z := 8.

Section freelist.
Context {_Allocator : Type} `{!Allocator _Allocator}.
Context `{!SupportsTruncatedDeallocation _Allocator}.
Context {_MaxNodeCount _BatchedAllocations : Z}.
Abbreviation t := (t _Allocator _MaxNodeCount _BatchedAllocations).

Definition alignment : Z := abb.alignment _Allocator.
Definition supports_truncated_deallocation : bool :=
  abb.supports_truncated_deallocation _Allocator.

(** The two [static_assert]s of the class. *)
Definition static_asserts : bool :=
  (0 <? _MaxNodeCount) && (_BatchedAllocations <=? _MaxNodeCount).

(** [freelist()] for a range [_Range] with bounds [minSize], [maxSize]
    ([dynamic_value] twice for [dynamic_range_t]). *)
Definition construct `{!DefaultConstructible _Allocator} (minSize maxSize : Z) : M t :=
  a ← abb.construct _Allocator; mret (Freelist a minSize maxSize 0 0).

Definition with_base (fl : t) (a : _Allocator) : t :=
  Freelist a (min_size fl) (max_size fl) (pHead_ fl) (currentNodeCount_ fl).

Definition isGoodSize (fl : t) (size : Z) : bool :=
  (min_size fl <=? size) && (size <=? max_size fl).

Definition isFull (fl : t) : bool := currentNodeCount_ fl =? _MaxNodeCount.

Definition pushNode (fl : t) (ptr : Z) : M t :=
  assert (negb (ptr =? 0));;
  (* Make the new head point to the old head *)
  store ptr (pHead_ fl);;
  (* Update the head and the list count *)
  mret (Freelist (base fl) (min_size fl) (max_size fl) ptr
          (to_size_t (currentNodeCount_ fl + 1))).

Definition popNode (fl : t) : M (Z * t) :=
  if negb (pHead_ fl =? 0)
  then
    next ← load (pHead_ fl);
    mret (pHead_ fl,
          Freelist (base fl) (min_size fl) (max_size fl) next
            (to_size_t (currentNodeCount_ fl - 1)))
  else mret (0, fl).

(** [for (i = 0; i < numBlocks; ++i) pushNode(batchBlock.ptr + i * blockSize)],
    with [n] rounds left. *)
Fixpoint pushBatch (n : nat) (i : Z) (batchPtr blockSize : Z) (fl : t) : M t :=
  match n with
  | O => mret fl
  | S n' =>
      fl ← pushNode fl (to_size_t (batchPtr + to_size_t (i * blockSize)));
      pushBatch n' (i + 1) batchPtr blockSize fl
  end.

(** [for (i = 0; i < numBlocks; ++i) { allocate one block; push it, or break }],
    with [n] rounds left. *)
Fixpoint pushSingles (n : nat) (blockSize : Z) (fl : t) : M t :=
  match n with
  | O => mret fl
  | S n' =>
      '(b, a) ← allocate (base fl) blockSize;
      if negb (ptr b =? 0)
      then fl ← pushNode (with_base fl a) (ptr b); pushSingles n' blockSize fl
      else mret (with_base fl a)
  end.

Definition tryPopulateFreeList (fl : t) : M t :=
  let blockSize := max_size fl in
  (* Don't go over _MaxNodeCount *)
  let numBlocks := Z.min _BatchedAllocations
                     (to_size_t (_MaxNodeCount - currentNodeCount_ fl)) in
  '(batchedAllocationSucceeded, fl) ←
    (if supports_truncated_deallocation
     then
       (* Allocate one big block then split it *)
       let batchSize := to_size_t (numBlocks * blockSize) in
       '(batchBlock, a) ← allocate (base fl) batchSize;
       if negb (ptr batchBlock =? 0)
       then fl ← pushBatch (Z.to_nat numBlocks) 0 (ptr batchBlock) blockSize (with_base fl a);
            mret (true, fl)
       else mret (false, with_base fl a)
     else mret (false, fl));
  if negb batchedAllocationSucceeded
  then pushSingles (Z.to_nat numBlocks) blockSize fl
  else mret fl.

Definition allocate (fl : t) (size : Z) : M (block * t) :=
  let alignedSize := round_to_alignment size alignment in
  '(recycled, fl) ←
    (if isGoodSize fl alignedSize
     then
       (* If the list is empty preallocate a bunch of blocks *)
       fl ← (if pHead_ fl =? 0 then tryPopulateFreeList fl else mret fl);
       (* If we managed to populate the freelist just pop it *)
       popNode fl
     else mret (0, fl));
  if negb (recycled =? 0)
  then mret (Block recycled (max_size fl), fl)
  else
    (* The size is outside the range, just fall back to the allocator *)
    '(b, a) ← abb.allocate (base fl) alignedSize;
    mret (b, with_base fl a).

Definition deallocate (fl : t) (b : block) : M t :=
  if negb (isFull fl) && (size b =? max_size fl)
  then pushNode fl (ptr b)               (* The pool still got some space *)
  else
    (* The pool is full, deallocate the block for real *)
    a ← abb.deallocate (base fl) b; mret (with_base fl a).

#[global] Instance allocator : Allocator t := {|
  abb.alignment := alignment;
  abb.allocate := allocate;
  abb.deallocate := deallocate
|}.

(** The source declares the parameter as [const block &b] and hands it to
    helpers that take [block &b]; it is read here as the other allocators
    declare it. *)
Definition reallocate (fl : t) (b : block) (newSize : Z) : M (bool * block * t) :=
  '(done, b, fl) ← handle_common_reallocation_cases fl b newSize;
  if done : bool then mret (true, b, fl)
  else
    let alignedNewSize := round_to_alignment newSize alignment in
    if isGoodSize fl alignedNewSize
    then mret (true, b, fl)
    else reallocate_and_copy deallocate allocate fl b newSize.

Definition setMinMax (fl : t) (minSize maxSize : Z) : M t :=
  assert (maxSize >=? sizeof_node);;
  mret (Freelist (base fl) minSize maxSize (pHead_ fl) (currentNodeCount_ fl)).

#[global] Instance reallocator : Reallocate t := reallocate.
#[global] Instance truncation : SupportsTruncatedDeallocation t :=
  supports_truncated_deallocation.
#[global] Instance range_setter : SetMinMax t := setMinMax.
(** The default constructor of a free list over [dynamic_range_t]. *)
#[global] Instance constructible `{!DefaultConstructible _Allocator} :
  DefaultConstructible t := construct dynamic_value dynamic_value.

End freelist.

Arguments alignment _Allocator {_}.
Arguments supports_truncated_deallocation _Allocator {_}.
Arguments static_asserts _MaxNodeCount _BatchedAllocations : clear implicits.

End freelist.

(** ** bucketizer.hpp *)

Module bucketizer.

Record t (_Allocator _RangeRaider : Type) : Type := Bucketizer { buckets_ : list _Allocator }.
Arguments Bucketizer {_ _} _.
Arguments buckets_ {_ _} _.

Section bucketizer.
Context {_Allocator : Type} `{!Allocator _Allocator} `{!Reallocate _Allocator}.
Context {_RangeRaider : Type} `{!RangeRaider _RangeRaider}.
Abbreviation t := (t _Allocator _RangeRaider).

Definition alignment : Z := abb.alignment _Allocator.
Definition num_buckets : Z := num_steps _RangeRaider.

(** [_Allocator buckets_[num_buckets]]: the buckets, default constructed. *)
Fixpoint constructBuckets `{!DefaultConstructible _Allocator} (n : nat) : M (list _Allocator) :=
  match n with
  | O => mret []
  | S n' => a ← construct _Allocator; rest ← constructBuckets n'; mret (a :: rest)
  end.

(** The body of the constructor's loop over [buckets_], from bucket [i]
    on. *)
Fixpoint setBucketRanges `{!SetMinMax _Allocator}
    (buckets : list _Allocator) (i : Z) (currentBucketMinSize : Z) : M (list _Allocator) :=
  match buckets with
  | [] => mret []
  | bucket :: rest =>
      let stepSize := step_size _RangeRaider i in
      bucket ← setMinMax bucket
                 (to_size_t (currentBucketMinSize + (if i =? 0 then 0 else 1)))
                 (to_size_t (currentBucketMinSize + stepSize));
      rest ← setBucketRanges rest (i + 1) (to_size_t (currentBucketMinSize + stepSize));
      mret (bucket :: rest)
  end.

(** [bucketizer()] *)
Definition construct `{!DefaultConstructible _Allocator} `{!SetMinMax _Allocator} : M t :=
  buckets ← constructBuckets (Z.to_nat num_buckets);
  buckets ← setBucketRanges buckets 0 (raider_min _RangeRaider);
  mret (Bucketizer buckets).

Definition isGoodSize (size : Z) : bool :=
  (raider_min _RangeRaider <=? size) && (size <=? raider_max _RangeRaider).

Definition bucketIndex (size : Z) : Z := step_index _RangeRaider size.

(** [buckets_[i] = a] *)
Definition with_bucket (bz : t) (i : Z) (a : _Allocator) : t :=
  Bucketizer (<[Z.to_nat i := a]> (buckets_ bz)).

Definition allocate (bz : t) (size : Z) : M (block * t) :=
  if isGoodSize size
  then
    bucket ← array_at (buckets_ bz) (bucketIndex size);
    '(b, bucket) ← abb.allocate bucket size;
    mret (b, with_bucket bz (bucketIndex size) bucket)
  else mret (Block 0 0, bz).

Definition deallocate (bz : t) (b : block) : M t :=
  if isGoodSize (size b)
  then
    bucket ← array_at (buckets_ bz) (bucketIndex (size b));
    bucket ← abb.deallocate bucket b;
    mret (with_bucket bz (bucketIndex (size b)) bucket)
  else mret bz.

#[global] Instance allocator : Allocator t := {|
  abb.alignment := alignment;
  abb.allocate := allocate;
  abb.deallocate := deallocate
|}.

(** [buckets_[i].allocate] and [buckets_[i].deallocate], seen from the
    bucketizer that holds the array. *)
Definition bucket_allocate (i : Z) (bz : t) (size : Z) : M (block * t) :=
  bucket ← array_at (buckets_ bz) i;
  '(b, bucket) ← abb.allocate bucket size;
  mret (b, with_bucket bz i bucket).

Definition bucket_deallocate (i : Z) (bz : t) (b : block) : M t :=
  bucket ← array_at (buckets_ bz) i;
  bucket ← abb.deallocate bucket b;
  mret (with_bucket bz i bucket).

Definition reallocate (bz : t) (b : block) (newSize : Z) : M (bool * block * t) :=
  if negb (isGoodSize newSize)
  then mret (false, b, bz)
  else
    '(done, b, bz) ← handle_common_reallocation_cases bz b newSize;
    if done : bool then mret (true, b, bz)
    else
      let oldBucketIndex := bucketIndex (size b) in
      let newBucketIndex := bucketIndex newSize in
      if oldBucketIndex =? newBucketIndex
      then
        bucket ← array_at (buckets_ bz) newBucketIndex;
        '(ok, b, bucket) ← abb.reallocate bucket b newSize;
        mret (ok, b, with_bucket bz newBucketIndex bucket)
      else
        reallocate_and_copy (bucket_deallocate oldBucketIndex)
          (bucket_allocate newBucketIndex) bz b newSize.

Definition owns `{!Owns _Allocator} (bz : t) (b : block) : M bool :=
  if isGoodSize (size b)
  then bucket ← array_at (buckets_ bz) (bucketIndex (size b)); mret (abb.owns bucket b)
  else mret false.

#[global] Instance reallocator : Reallocate t := reallocate.

End bucketizer.

Arguments alignment _Allocator {_}.
Arguments num_buckets _RangeRaider {_}.
Arguments isGoodSize _RangeRaider {_} size.
Arguments bucketIndex _RangeRaider {_} size.

End bucketizer.

(** ** segregator.hpp *)

(** Modelled from the spec: [const_max], which the segregator uses for its
    alignment, is declared in none of the headers; the spec says that a
    compositor wrapping inner allocators advertises the maximum of their
    alignments. *)
Definition const_max (a b : Z) : Z := Z.max a b.

Module segregator.

(** [segregator<_Threshold, _SmallAllocator, _LargeAllocator>] derives from
    both inner allocators. *)
Record t (_Threshold : Z) (_SmallAllocator _LargeAllocator : Type) : Type :=
  Segregator { small : _SmallAllocator; large : _LargeAllocator }.
Arguments Segregator {_ _ _} _ _.
Arguments small {_ _ _} _.
Arguments large {_ _ _} _.

Section segregator.
Context {_Threshold : Z}.
Context {_SmallAllocator : Type} `{!Allocator _SmallAllocator} `{!Reallocate _SmallAllocator}.
Context {_LargeAllocator : Type} `{!Allocator _LargeAllocator} `{!Reallocate _LargeAllocator}.
Abbreviation t := (t _Threshold _SmallAllocator _LargeAllocator).

Definition alignment : Z :=
  const_max (abb.alignment _SmallAllocator) (abb.alignment _LargeAllocator).

(** The members of the two bases, acting on the whole object. *)
Definition small_allocate (sg : t) (size : Z) : M (block * t) :=
  '(b, s) ← abb.allocate (small sg) size; mret (b, Segregator s (large sg)).

Definition large_allocate (sg : t) (size : Z) : M (block * t) :=
  '(b, l) ← abb.allocate (large sg) size; mret (b, Segregator (small sg) l).

Definition small_deallocate (sg : t) (b : block) : M t :=
  s ← abb.deallocate (small sg) b; mret (Segregator s (large sg)).

Definition large_deallocate (sg : t) (b : block) : M t :=
  l ← abb.deallocate (large sg) b; mret (Segregator (small sg) l).

Definition small_reallocate (sg : t) (b : block) (newSize : Z) : M (bool * block * t) :=
  '(ok, b, s) ← abb.reallocate (small sg) b newSize; mret (ok, b, Segregator s (large sg)).

Definition large_reallocate (sg : t) (b : block) (newSize : Z) : M (bool * block * t) :=
  '(ok, b, l) ← abb.reallocate (large sg) b newSize; mret (ok, b, Segregator (small sg) l).

Definition allocate (sg : t) (size : Z) : M (block * t) :=
  if size <=? _Threshold
  then small_allocate sg size
  else large_allocate sg size.

Definition deallocate (sg : t) (b : block) : M t :=
  if size b <=? _Threshold
  then small_deallocate sg b
  else large_deallocate sg b.

#[global] Instance allocator : Allocator t := {|
  abb.alignment := alignment;
  abb.allocate := allocate;
  abb.deallocate := deallocate
|}.

Definition reallocate (sg : t) (b : block) (newSize : Z) : M (bool * block * t) :=
  '(done, b, sg) ← handle_common_reallocation_cases sg b newSize;
  if done : bool then mret (true, b, sg)
  (* Check if we live in the small allocator *)
  else if size b <=? _Threshold
  then
    (* Check if we can stay in the small allocator *)
    if newSize <=? _Threshold
    then small_reallocate sg b newSize
    else reallocate_and_copy small_deallocate large_allocate sg b newSize
  (* If we're down here it means that we live in the large allocator *)
  else if newSize <=? _Threshold
  then reallocate_and_copy large_deallocate small_allocate sg b newSize
  else large_reallocate sg b newSize.

Definition owns `{!Owns _SmallAllocator} `{!Owns _LargeAllocator} (sg : t) (b : block) : bool :=
  if size b <=? _Threshold
  then abb.owns (small sg) b
  else abb.owns (large sg) b.

#[global] Instance reallocator : Reallocate t := reallocate.
#[global] Instance owner `{!Owns _SmallAllocator} `{!Owns _LargeAllocator} : Owns t := owns.

End segregator.

Arguments alignment _SmallAllocator {_} _LargeAllocator {_}.

End segregator.

(** ** fallback_allocator.hpp *)

Module fallback_allocator.

Record t (_PrimaryAllocator _FallbackAllocator : Type) : Type :=
  Fallback { primary : _PrimaryAllocator; fallback : _FallbackAllocator }.
Arguments Fallback {_ _} _ _.
Arguments primary {_ _} _.
Arguments fallback {_ _} _.

Section fallback_allocator.
Context {_PrimaryAllocator : Type} `{!Allocator _PrimaryAllocator}.
Context `{!Reallocate _PrimaryAllocator} `{!Owns _PrimaryAllocator}.
Context {_FallbackAllocator : Type} `{!Allocator _FallbackAllocator}.
Context `{!Reallocate _FallbackAllocator}.
Abbreviation t := (t _PrimaryAllocator _FallbackAllocator).

Definition alignment : Z :=
  Z.max (abb.alignment _PrimaryAllocator) (abb.alignment _FallbackAllocator).

Definition primary_deallocate (fa : t) (b : block) : M t :=
  p ← abb.deallocate (primary fa) b; mret (Fallback p (fallback fa)).

Definition fallback_allocate (fa : t) (size : Z) : M (block * t) :=
  '(b, f) ← abb.allocate (fallback fa) size; mret (b, Fallback (primary fa) f).

Definition allocate (fa : t) (size : Z) : M (block * t) :=
  '(b, p) ← abb.allocate (primary fa) size;
  if ptr b =? 0
  then fallback_allocate (Fallback p (fallback fa)) size
  else mret (b, Fallback p (fallback fa)).

Definition deallocate (fa : t) (b : block) : M t :=
  if abb.owns (primary fa) b
  then primary_deallocate fa b
  else f ← abb.deallocate (fallback fa) b; mret (Fallback (primary fa) f).

#[global] Instance allocator : Allocator t := {|
  abb.alignment := alignment;
  abb.allocate := allocate;
  abb.deallocate := deallocate
|}.

Definition reallocate (fa : t) (b : block) (newSize : Z) : M (bool * block * t) :=
  '(done, b, fa) ← handle_common_reallocation_cases fa b newSize;
  if done : bool then mret (true, b, fa)
  else if abb.owns (primary fa) b
  then
    '(ok, b, p) ← abb.reallocate (primary fa) b newSize;
    let fa := Fallback p (fallback fa) in
    if ok : bool then mret (true, b, fa)
    else reallocate_and_copy primary_deallocate fallback_allocate fa b newSize
  else
    '(ok, b, f) ← abb.reallocate (fallback fa) b newSize;
    mret (ok, b, Fallback (primary fa) f).

Definition owns `{!Owns _FallbackAllocator} (fa : t) (b : block) : bool :=
  abb.owns (primary fa) b || abb.owns (fallback fa) b.

Definition deallocateAll `{!DeallocateAll _PrimaryAllocator} `{!DeallocateAll _FallbackAllocator}
    (fa : t) : M t :=
  p ← abb.deallocateAll (primary fa);
  f ← abb.deallocateAll (fallback fa);
  mret (Fallback p f).

#[global] Instance reallocator : Reallocate t := reallocate.
#[global] Instance owner `{!Owns _FallbackAllocator} : Owns t := owns.

End fallback_allocator.

Arguments alignment _PrimaryAllocator {_} _FallbackAllocator {_}.

End fallback_allocator.

(** ** affix_allocator.hpp *)

(** The [_Prefix] and [_Suffix] parameters: the placeholder [no_affix], or
    a type, of which the allocator uses the size alone. *)
Inductive affix : Type :=
| no_affix
| affix_of_size (sizeof : Z).

Module affix_allocator.

Record t (_Allocator : Type) (_Prefix _Suffix : affix) : Type := Affix { base : _Allocator }.
Arguments Affix {_ _ _} _.
Arguments base {_ _ _} _.

Section affix_allocator.
Context {_Allocator : Type} `{!Allocator _Allocator}.
Context {_Prefix _Suffix : affix}.
Abbreviation t := (t _Allocator _Prefix _Suffix).

Definition alignment : Z := abb.alignment _Allocator.

Definition affix_size (a : affix) : Z :=
  match a with
  | no_affix => 0
  | affix_of_size sizeof => round_to_alignment sizeof alignment
  end.

Definition prefix_size : Z := affix_size _Prefix.
Definition suffix_size : Z := affix_size _Suffix.

Definition static_asserts : bool := negb ((prefix_size =? 0) && (suffix_size =? 0)).

Definition toAffixedBlock (strippedBlock : block) : block :=
  let affixedSize := to_size_t (to_size_t (prefix_size + size strippedBlock) + suffix_size) in
  Block (to_size_t (ptr strippedBlock - prefix_size)) affixedSize.

Definition toStrippedBlock (affixedBlock : block) : block :=
  let strippedSize := to_size_t (to_size_t (size affixedBlock - prefix_size) - suffix_size) in
  Block (to_size_t (ptr affixedBlock + prefix_size)) strippedSize.

Definition allocate (aa : t) (size : Z) : M (block * t) :=
  let affixedSize := to_size_t (to_size_t (prefix_size + size) + suffix_size) in
  '(affixedBlock, a) ← abb.allocate (base aa) affixedSize;
  mret (toStrippedBlock affixedBlock, Affix a).

Definition deallocate (aa : t) (strippedBlock : block) : M t :=
  let affixedBlock := toAffixedBlock strippedBlock in
  a ← abb.deallocate (base aa) affixedBlock; mret (Affix a).

#[global] Instance allocator : Allocator t := {|
  abb.alignment := alignment;
  abb.allocate := allocate;
  abb.deallocate := deallocate
|}.

Definition reallocate (aa : t) (strippedBlock : block) (newSize : Z) : M (bool * block * t) :=
  '(done, strippedBlock, aa) ← handle_common_reallocation_cases aa strippedBlock newSize;
  if done : bool then mret (true, strippedBlock, aa)
  else reallocate_and_copy deallocate allocate aa strippedBlock newSize.

Definition owns `{!Owns _Allocator} (aa : t) (strippedBlock : block) : bool :=
  abb.owns (base aa) (toAffixedBlock strippedBlock).

Definition prefix (strippedBlock : block) : Z :=
  to_size_t (ptr strippedBlock - prefix_size).

Definition suffix (strippedBlock : block) : Z :=
  to_size_t (ptr strippedBlock + size strippedBlock).

#[global] Instance reallocator : Reallocate t := reallocate.
#[global] Instance owner `{!Owns _Allocator} : Owns t := owns.

End affix_allocator.

Arguments alignment _Allocator {_}.
Arguments affix_size _Allocator {_} a.
Arguments prefix_size _Allocator {_} _Prefix.
Arguments suffix_size _Allocator {_} _Suffix.
Arguments static_asserts _Allocator {_} _Prefix _Suffix.
Arguments toAffixedBlock _Allocator {_} _Prefix _Suffix strippedBlock.
Arguments toStrippedBlock _Allocator {_} _Prefix _Suffix affixedBlock.
Arguments prefix _Allocator {_} _Prefix strippedBlock.

End affix_allocator.

(** ** cascading_allocator.hpp *)

Module cascading_allocator.

(** A node of the cascade.  The singly linked list is held as the list of
    its nodes, head first: [pHead_] is the address of the first node (null
    for the empty list) and the [pNext_] of a node is the address of the
    node after it (null for the last).  A node lives at [address], in a
    block of its own [allocator_]. *)
Record node (_Allocator : Type) : Type := Node { allocator_ : _Allocator; address : Z }.
Arguments Node {_} _ _.
Arguments allocator_ {_} _.
Arguments address {_} _.

(** [sizeof_node] is [sizeof(node)], which the layout of [_Allocator]
    decides. *)
Record t (_Allocator : Type) (sizeof_node : Z) : Type :=
  Cascade { nodes : list (node _Allocator); nodeAllocatedSize_ : Z }.
Arguments Cascade {_ _} _ _.
Arguments nodes {_ _} _.
Arguments nodeAllocatedSize_ {_ _} _.

Section cascading_allocator.
Context {_Allocator : Type} `{!Allocator _Allocator} `{!Reallocate _Allocator}.
Context `{!Owns _Allocator} `{!DeallocateAll _Allocator}.
Context `{!DefaultConstructible _Allocator} `{!Destructible _Allocator}.
Context {sizeof_node : Z}.
Abbreviation t := (t _Allocator sizeof_node).

Definition alignment : Z := abb.alignment _Allocator.

(** [cascading_allocator()] *)
Definition construct : M t := mret (Cascade [] 0).

Definition pHead_ (ca : t) : Z :=
  match nodes ca with
  | [] => 0
  | pNode :: _ => address pNode
  end.

(** The loop of [allocateNoGrow], from the node [pNode] on. *)
Fixpoint allocateNoGrow_loop (b : block) (pNode : list (node _Allocator)) (size : Z)
    : M (block * list (node _Allocator)) :=
  match pNode with
  | [] => mret (b, [])
  | n :: pNext =>
      '(b, a) ← allocate (allocator_ n) size;
      if negb (ptr b =? 0)
      then mret (b, Node a (address n) :: pNext)
      else '(b, pNext) ← allocateNoGrow_loop b pNext size;
           mret (b, Node a (address n) :: pNext)
  end.

Definition allocateNoGrow (ca : t) (size : Z) : M (block * t) :=
  '(b, ns) ← allocateNoGrow_loop (Block 0 0) (nodes ca) size;
  mret (b, Cascade ns (nodeAllocatedSize_ ca)).

(** [createNode]: the new node, if its allocator could hold it. *)
Definition createNode (ca : t) : M (option (node _Allocator) * t) :=
  (* First create a node embedding an allocator on the stack *)
  a ← abb.construct _Allocator;
  (* Then get a block from that allocator to move the stack node in it *)
  '(nodeBlock, a) ← allocate a sizeof_node;
  if ptr nodeBlock =? 0
  then destroy a;; mret (None, ca)
  else
    (* All nodes should have the same size for a given allocator *)
    assert ((nodeAllocatedSize_ ca =? 0) || (nodeAllocatedSize_ ca =? size nodeBlock));;
    mret (Some (Node a (ptr nodeBlock)), Cascade (nodes ca) (size nodeBlock)).

Definition prependNode (ca : t) : M (option (node _Allocator) * t) :=
  '(pNewNode, ca) ← createNode ca;
  match pNewNode with
  | None => mret (None, ca)
  | Some n => mret (Some n, Cascade (n :: nodes ca) (nodeAllocatedSize_ ca))
  end.

(** [pNode->allocator_.allocate(size)] for the node at position [i]. *)
Definition node_allocate (i : nat) (ca : t) (size : Z) : M (block * t) :=
  match nodes ca !! i with
  | Some n =>
      '(b, a) ← allocate (allocator_ n) size;
      mret (b, Cascade (<[i := Node a (address n)]> (nodes ca)) (nodeAllocatedSize_ ca))
  | None => fault
  end.

(** [pNode->allocator_.deallocate(b)] for the node at position [i]. *)
Definition node_deallocate (i : nat) (ca : t) (b : block) : M t :=
  match nodes ca !! i with
  | Some n =>
      a ← deallocate (allocator_ n) b;
      mret (Cascade (<[i := Node a (address n)]> (nodes ca)) (nodeAllocatedSize_ ca))
  | None => fault
  end.

Definition allocate (ca : t) (size : Z) : M (block * t) :=
  (* Try to allocate from each node of the list *)
  '(b, ca) ← allocateNoGrow ca size;
  if negb (ptr b =? 0)
  then mret (b, ca)
  else
    (* No node is able to allocate the requested size, just add a node *)
    '(pNode, ca) ← prependNode ca;
    match pNode with
    | Some _ => node_allocate 0 ca size
    | None => mret (Block 0 0, ca)
    end.

(** The position of the first node that owns [b]. *)
Fixpoint findOwningNode_loop (pNode : list (node _Allocator)) (b : block) : option nat :=
  match pNode with
  | [] => None
  | n :: pNext =>
      if owns (allocator_ n) b then Some O
      else S <$> findOwningNode_loop pNext b
  end.

Definition findOwningNode (ca : t) (b : block) : option nat :=
  findOwningNode_loop (nodes ca) b.

Definition deallocate (ca : t) (b : block) : M t :=
  match findOwningNode ca b with
  | Some i => node_deallocate i ca b
  | None => mret ca
  end.

#[global] Instance allocator : Allocator t := {|
  abb.alignment := alignment;
  abb.allocate := allocate;
  abb.deallocate := deallocate
|}.

(** [pNode->allocator_.deallocate(b)] for the node that stands [k] nodes
    before the end of the list: nodes are only ever prepended, so this
    names one node across a call of [allocate]. *)
Definition node_deallocate_from_end (k : nat) (ca : t) (b : block) : M t :=
  node_deallocate (length (nodes ca) - 1 - k)%nat ca b.

Definition reallocate (ca : t) (b : block) (newSize : Z) : M (bool * block * t) :=
  '(done, b, ca) ← handle_common_reallocation_cases ca b newSize;
  if done : bool then mret (true, b, ca)
  else
    match findOwningNode ca b with
    | None => mret (false, b, ca)
    | Some i =>
        match nodes ca !! i with
        | Some n =>
            '(ok, b, a) ← abb.reallocate (allocator_ n) b newSize;
            let ca := Cascade (<[i := Node a (address n)]> (nodes ca)) (nodeAllocatedSize_ ca) in
            if ok : bool then mret (true, b, ca)
            else
              reallocate_and_copy
                (node_deallocate_from_end (length (nodes ca) - 1 - i)%nat)
                allocate ca b newSize
        | None => fault
        end
    end.

Definition owns (ca : t) (b : block) : bool :=
  match findOwningNode ca b with
  | Some _ => true
  | None => false
  end.

(** [eraseNode(n)] for the node at the head of [n]: erase its successors,
    move the node on the stack, give the block it lived in back to its
    own allocator, and let the stack node go out of scope. *)
Fixpoint eraseNode (nodeAllocatedSize : Z) (n : list (node _Allocator)) : M unit :=
  match n with
  | [] => mret tt                        (* No node, nothing to erase *)
  | stackNode :: pNext =>
      (* Recursively erase all child nodes first *)
      eraseNode nodeAllocatedSize pNext;;
      (* Recreate a block from the node pointer *)
      let b := Block (address stackNode) nodeAllocatedSize in
      (* Deallocate ourselves from ourselves *)
      a ← abb.deallocate (allocator_ stackNode) b;
      destroy a
  end.

Definition eraseAllNodes (ca : t) : M t :=
  eraseNode (nodeAllocatedSize_ ca) (nodes ca);;
  mret (Cascade [] (nodeAllocatedSize_ ca)).

Definition deallocateAll (ca : t) : M t :=
  match nodes ca with
  | [] => mret ca                        (* Empty allocator, nothing to do *)
  | stackNode :: pNext =>
      (* Erase everything after the head *)
      eraseNode (nodeAllocatedSize_ ca) pNext;;
      (* Deallocate everything, the space of the head node included *)
      a ← abb.deallocateAll (allocator_ stackNode);
      (* Allocate back some space *)
      '(nodeBlock, a) ← abb.allocate a sizeof_node;
      (* Move back the head inside its allocator: a placement new, which
         writes through [nodeBlock.ptr] *)
      if ptr nodeBlock =? 0
      then fault
      else mret (Cascade [Node a (ptr nodeBlock)] (nodeAllocatedSize_ ca))
  end.

#[global] Instance reallocator : Reallocate t := reallocate.
#[global] Instance owner : Owns t := owns.
#[global] Instance arena : DeallocateAll t := deallocateAll.
#[global] Instance constructible : DefaultConstructible t := construct.
#[global] Instance destructible : Destructible t :=
  fun ca => _ ← eraseAllNodes ca; mret tt.

End cascading_allocator.

Arguments alignment _Allocator {_}.

End cascading_allocator.

End abb.

(** * Vocabulary of the specification *)

Import abb.

(** What a computation returns, its effect on the world left aside. *)
Definition outcome {X : Type} (m : M X) (w : world) : option X := fst <$> m w.

(** A block that names a range of bytes of the 64-bit address space. *)
Definition block_in_address_space (b : block) : Prop :=
  0 <= ptr b /\ 0 <= size b /\ ptr b + size b < 2 ^ 64.

(** Two blocks that share a byte. *)
Definition blocks_overlap (a b : block) : Prop :=
  ptr a < ptr b + size b /\ ptr b < ptr a + size a.

(** A null block: null base and zero size. *)
Definition is_nullblock (b : block) : bool := (ptr b =? 0) && (size b =? 0).

(** One of the shared fast paths of [reallocate] settles the call: the
    block already has the aligned new size, the new size is zero, or the
    block is null. *)
Definition fast_path_applies (al : Z) (b : block) (newSize : Z) : bool :=
  (size b =? round_to_alignment newSize al) || (newSize =? 0) || (ptr b =? 0).

(** The heap buffer of the linear arena that a node of a cascade holds. *)
Definition buffer_of {_BufferSize _Alignment : Z} {_InitMode : BufferInitMode}
    (n : cascading_allocator.node
           (heap_linear_allocator _BufferSize _Alignment _InitMode mallocator.t)) : Z :=
  heap_buffer_provider.buffer_ (linear_allocator.provider (cascading_allocator.allocator_ n)).

(** The node has the buffer of its arena: a buffer of [_BufferSize] bytes
    that is not null and lies in the address space.  [createNode] makes
    no node without one. *)
Definition has_its_buffer {_BufferSize _Alignment : Z} {_InitMode : BufferInitMode}
    (n : cascading_allocator.node
           (heap_linear_allocator _BufferSize _Alignment _InitMode mallocator.t)) : Prop :=
  0 < buffer_of n /\ buffer_of n + _BufferSize < 2 ^ 64.

(** The system heap answers a request for [size] bytes with null or with
    the address of [size] bytes of the address space. *)
Definition heap_answers_with_room (size : Z) (w : world) : Prop :=
  Forall (fun p => p = 0 \/ (0 < p /\ p + size < 2 ^ 64)) (answers w).

(** The linear arena that has the buffer provider and the cursor of a
    concurrent arena, and the concurrent arena that has those of a linear
    one. *)
Definition linear_of {_Alignment : Z} {P : Type}
    (ca : concurrent_linear_allocator.t _Alignment P) : linear_allocator.t _Alignment P :=
  linear_allocator.Linear (concurrent_linear_allocator.provider ca)
    (concurrent_linear_allocator.p_ ca).

Definition concurrent_of {_Alignment : Z} {P : Type}
    (la : linear_allocator.t _Alignment P) : concurrent_linear_allocator.t _Alignment P :=
  concurrent_linear_allocator.Concurrent (linear_allocator.provider la)
    (linear_allocator.p_ la).

(** A buffer provider whose buffer is there from the construction on:
    [init] has nothing to do. *)
Definition buffer_is_ready (P : Type) `{!BufferProvider P} : Prop :=
  forall (bp : P) (p : Z) (w : world), init bp p w = Some (bp, p, w).



(** [l] without the first occurrence of [p]. *)
Fixpoint remove_one (p : Z) (l : list Z) : list Z :=
  match l with
  | [] => []
  | q :: l' => if p =? q then l' else q :: remove_one p l'
  end.

(** The pointers that the system heap has handed out and not got back,
    after the calls [cs] (latest first): what the program holds.  A
    pointer that is held at the end of the program has leaked. *)
Fixpoint held_pointers (cs : list libc_call) : list Z :=
  match cs with
  | [] => []
  | call_malloc _ result :: cs' =>
      if result =? 0 then held_pointers cs' else result :: held_pointers cs'
  | call_free p :: cs' => remove_one p (held_pointers cs')
  | call_realloc p _ result :: cs' =>
      if result =? 0 then held_pointers cs'
      else result :: remove_one p (held_pointers cs')
  | call_memcpy _ _ _ :: cs' => held_pointers cs'
  end.

(** ** Objects of the scenarios *)

Module scenario.

(** A world whose system heap has nothing to give. *)
Definition exhausted : world := World [] [] ∅.

(** A world whose system heap answers the next requests with the given
    pointers. *)
Definition heap_answering (ps : list Z) : world := World ps [] ∅.

(** A linear arena over a stack buffer of [_BufferSize] bytes that lives
    at address [at_], its cursor at [cursor]. *)
Definition stack_arena (_BufferSize : Z) (at_ cursor : Z) : stack_linear_allocator _BufferSize 8 :=
  linear_allocator.Linear (stack_buffer_provider.Provider at_) cursor.

(** The concurrent arena over a stack buffer of 128 bytes at address 4096,
    its cursor at [cursor]. *)
Definition concurrent_arena (cursor : Z) : concurrent_stack_linear_allocator 128 8 :=
  concurrent_linear_allocator.Concurrent (stack_buffer_provider.Provider 4096) cursor.


(** A free list of at most 8 nodes, populated 4 at a time, over a linear
    arena of 1 KiB at address 4096. *)
Definition freelist_over_arena (minSize maxSize pHead count cursor : Z)
    : freelist.t (stack_linear_allocator 1024 8) 8 4 :=
  freelist.Freelist (stack_arena 1024 4096 cursor) minSize maxSize pHead count.

(** The world after a free list has carved the 256 bytes at address 4096
    into four nodes of 64 bytes: each node holds the address of the one
    carved before it. *)
Definition carved_by_64 : world :=
  World [] [] (<[4288 := 4224]> (<[4224 := 4160]> (<[4160 := 4096]> (<[4096 := 0]> ∅)))).

(** The same for four nodes of 60 bytes out of 240. *)
Definition carved_by_60 : world :=
  World [] [] (<[4276 := 4216]> (<[4216 := 4156]> (<[4156 := 4096]> (<[4096 := 0]> ∅)))).

(** An affix allocator that puts a header of 8 bytes before every block
    of the null allocator. *)
Definition headed_null : affix_allocator.t null_allocator.t (affix_of_size 8) no_affix :=
  affix_allocator.Affix null_allocator.null_allocator.

(** The buckets of [bucketizer<freelist<mallocator, dynamic_range_t, 8, 4>,
    _RangeRaider>] as the constructor of the bucketizer leaves them. *)
Definition bucket (minSize maxSize : Z) : freelist.t mallocator.t 8 4 :=
  freelist.Freelist mallocator.mallocator minSize maxSize 0 0.

Definition linear_buckets
    : bucketizer.t (freelist.t mallocator.t 8 4) (linear_range_raider.t 8 64 8) :=
  bucketizer.Bucketizer
    [bucket 8 16; bucket 17 24; bucket 25 32; bucket 33 40;
     bucket 41 48; bucket 49 56; bucket 57 64].

Definition pow2_buckets
    : bucketizer.t (freelist.t mallocator.t 8 4) (pow2_range_raider.t (2 ^ 3) (2 ^ 6)) :=
  bucketizer.Bucketizer [bucket 8 16; bucket 17 32; bucket 33 64].

(** A cascade of linear arenas of 1 KiB on the heap; a node of it takes 24
    bytes. *)
Definition arena : Type := heap_linear_allocator 1024 8 InitOnConstruct mallocator.t.

Definition cascade : Type := cascading_allocator.t arena 24.

Definition no_nodes : cascade := cascading_allocator.Cascade [] 0.

(** The node that lives at the start of the buffer at [buffer], the cursor
    of its arena at [cursor]. *)
Definition node_at (buffer cursor : Z) : cascading_allocator.node arena :=
  cascading_allocator.Node
    (linear_allocator.Linear (heap_buffer_provider.Provider mallocator.mallocator buffer) cursor)
    buffer.

(** The cascade after three allocations of 900 bytes. *)
Definition three_nodes : cascade :=
  cascading_allocator.Cascade
    [node_at 196608 197536; node_at 131072 132000; node_at 65536 66464] 24.

Definition three_buffers : world :=
  World [] [call_malloc 1024 196608; call_malloc 1024 131072; call_malloc 1024 65536] ∅.

End scenario.

(** Closes a side condition on concrete numbers by evaluation. *)
Ltac evaluate :=
  first [ reflexivity
        | discriminate
        | lia
        | apply Z.leb_le; reflexivity
        | apply Z.ltb_lt; reflexivity
        | split; evaluate
        | unfold block_in_address_space; cbn; lia ].

(** * Arithmetic of machine words *)

Lemma to_size_t_small (z : Z) : 0 <= z < 2 ^ 64 -> to_size_t z = z.
Proof. intros Hz. unfold to_size_t. now apply Z.mod_small. Qed.

Lemma to_size_t_range (z : Z) : 0 <= to_size_t z < 2 ^ 64.
Proof. unfold to_size_t. apply Z.mod_pos_bound. lia. Qed.

(** Rounding up, when nothing wraps: the least multiple of the alignment
    that is not below the size. *)
Lemma round_to_alignment_spec (n al : Z) :
  0 < al -> 0 <= n -> n + al <= 2 ^ 64 ->
  n <= round_to_alignment n al < n + al /\ round_to_alignment n al mod al = 0.
Proof.
  intros Hal Hn Hfit. unfold round_to_alignment.
  pose proof (Z.mod_pos_bound n al Hal) as Hm.
  destruct (Z.eqb_spec (n mod al) 0) as [E|E].
  - rewrite Z.add_0_r, to_size_t_small by lia. split; [lia|exact E].
  - rewrite (to_size_t_small (al - n mod al)) by lia.
    rewrite to_size_t_small by lia. split; [lia|].
    replace (n + (al - n mod al)) with (al * (n / al) + n mod al + (al - n mod al)).
    + replace (al * (n / al) + n mod al + (al - n mod al)) with ((n / al + 1) * al) by ring.
      apply Z.mod_mul. lia.
    + rewrite <- (Z.div_mod n al) by lia. reflexivity.
Qed.

(** No multiple of the alignment lies between the size and the rounded
    size. *)
Lemma round_to_alignment_least (n al m : Z) :
  0 < al -> 0 <= n -> n + al <= 2 ^ 64 ->
  n <= m -> m mod al = 0 -> round_to_alignment n al <= m.
Proof.
  intros Hal Hn Hfit Hm Hdiv.
  destruct (round_to_alignment_spec n al Hal Hn Hfit) as [Hround Hmod].
  destruct (Z.le_gt_cases (round_to_alignment n al) m) as [Hle|Hgt]; [exact Hle|exfalso].
  apply Z.mod_divide in Hmod; [|lia]. apply Z.mod_divide in Hdiv; [|lia].
  destruct Hmod as [q Hq]. destruct Hdiv as [q' Hq'].
  assert (q' < q) by nia. assert (q' * al + al <= q * al) by nia. lia.
Qed.

Lemma round_to_alignment_aligned (n al : Z) :
  0 <= n < 2 ^ 64 -> n mod al = 0 -> round_to_alignment n al = n.
Proof.
  intros Hn E. unfold round_to_alignment. rewrite E. simpl.
  rewrite Z.add_0_r. now apply to_size_t_small.
Qed.

Lemma to_size_t_below_zero (z : Z) : 0 < z < 2 ^ 64 -> to_size_t (0 - z) = 2 ^ 64 - z.
Proof.
  intros Hz. unfold to_size_t.
  replace (0 - z) with (2 ^ 64 - z + (-1) * 2 ^ 64) by ring.
  rewrite Z.mod_add by lia. apply Z.mod_small. lia.
Qed.

Lemma pow2_range (j : Z) : 0 <= j < 64 -> 0 < 2 ^ j < 2 ^ 64.
Proof.
  intros Hj. split; [apply Z.pow_pos_nonneg; lia|apply Z.pow_lt_mono_r; lia].
Qed.

(** ** Bit helpers on powers of two *)

Lemma last_bit_set_rec_zero (fuel : nat) : last_bit_set_rec fuel 0 = 0.
Proof. destruct fuel; reflexivity. Qed.

Lemma last_bit_set_rec_pow2 (fuel : nat) (j : Z) :
  0 <= j < 64 -> j < Z.of_nat fuel -> last_bit_set_rec fuel (2 ^ j) = j + 1.
Proof.
  revert j. induction fuel as [|fuel IH]; intros j Hj Hfuel; [lia|].
  pose proof (pow2_range j Hj) as Hpow.
  cbn [last_bit_set_rec]. destruct (Z.eqb_spec (2 ^ j) 0) as [E|_]; [lia|].
  rewrite Z.shiftr_div_pow2 by lia. change (2 ^ 1) with 2.
  destruct (Z.eq_dec j 0) as [->|Hpos].
  - change (2 ^ 0 / 2) with 0. rewrite last_bit_set_rec_zero. reflexivity.
  - replace (2 ^ j) with (2 ^ (j - 1) * 2).
    + rewrite Z.div_mul by lia. rewrite IH by lia.
      replace (1 + (j - 1 + 1)) with (j + 1) by lia. apply to_size_t_small. lia.
    + replace j with (Z.succ (j - 1)) at 2 by lia.
      rewrite Z.pow_succ_r by lia. ring.
Qed.

Lemma is_pow2_pow2 (j : Z) : 0 <= j < 64 -> is_pow2 (2 ^ j) = true.
Proof.
  intros Hj. pose proof (pow2_range j Hj) as Hpow. unfold is_pow2.
  rewrite to_size_t_small by lia.
  replace (2 ^ j - 1) with (Z.ones j) by (rewrite Z.ones_equiv; lia).
  rewrite Z.land_ones by lia. rewrite Z.mod_same by lia.
  destruct (Z.ltb_spec 0 (2 ^ j)); [reflexivity|lia].
Qed.

Lemma last_bit_set_pow2 (j : Z) : 0 <= j < 64 -> last_bit_set (2 ^ j) = j.
Proof.
  intros Hj. pose proof (pow2_range j Hj) as Hpow. unfold last_bit_set, details.last_bit_set.
  destruct (Z.eqb_spec (2 ^ j) 0) as [E|_]; [lia|].
  rewrite last_bit_set_rec_pow2 by lia.
  replace (j + 1 - 1) with j by lia. apply to_size_t_small. lia.
Qed.

Lemma array_at_out_of_bounds {X : Type} (a : list X) (i : Z) (w : world) :
  Z.of_nat (length a) <= i -> array_at a i w = None.
Proof.
  intros Hi. unfold array_at.
  destruct (Z.ltb_spec i (Z.of_nat (length a))); [lia|].
  rewrite andb_false_r. reflexivity.
Qed.

(** * The scenarios are states of the program *)

(** The free list over the arena carves its first batch on the first
    request in range and hands out the node carved last. *)
Lemma freelist_first_allocation_carves_a_batch :
  freelist.allocate (scenario.freelist_over_arena 8 64 0 0 4096) 32 scenario.exhausted
  = Some (Block 4288 64, scenario.freelist_over_arena 8 64 4224 3 4352, scenario.carved_by_64)
  /\ freelist.allocate (scenario.freelist_over_arena 8 60 0 0 4096) 50 scenario.exhausted
     = Some (Block 4276 60, scenario.freelist_over_arena 8 60 4216 3 4336, scenario.carved_by_60).
Proof. split; vm_compute; reflexivity. Qed.

(** The constructor of the bucketizer gives bucket [0] the sizes from the
    minimum up to the first step, and every later bucket the sizes after
    the previous bucket up to its own step: the maximum of the range
    belongs to the last bucket, the minimum to the first. *)
Lemma bucketizer_constructor_bounds :
  bucketizer.construct scenario.exhausted = Some (scenario.linear_buckets, scenario.exhausted)
  /\ bucketizer.construct scenario.exhausted = Some (scenario.pow2_buckets, scenario.exhausted).
Proof. split; vm_compute; reflexivity. Qed.

(** Three allocations of 900 bytes grow the cascade of 1 KiB arenas to
    three nodes. *)
Lemma cascade_grows_to_three_nodes :
  ('(a, ca) ← cascading_allocator.allocate scenario.no_nodes 900;
   '(b, ca) ← cascading_allocator.allocate ca 900;
   '(c, ca) ← cascading_allocator.allocate ca 900;
   mret (a, b, c, ca)) (scenario.heap_answering [65536; 131072; 196608])
  = Some (Block 65560 904, Block 131096 904, Block 196632 904, scenario.three_nodes,
          scenario.three_buffers).
Proof. vm_compute. reflexivity. Qed.

(** * The mallocator *)

(** C1 (the code departs from it).  Whatever the size asked for, the
    mallocator answers with the pointer of [malloc] and that very size: a
    non-null block of a size that is no multiple of the advertised
    alignment of 8 whenever the request is none. *)
Theorem mallocator_allocate_keeps_the_requested_size (n p : Z) (rest : list Z)
    (cs : list libc_call) (mem : gmap Z Z) :
  p <> 0 ->
  n mod mallocator.alignment <> 0 ->
  exists b,
    mallocator.allocate mallocator.mallocator n (World (p :: rest) cs mem)
    = Some (b, mallocator.mallocator, World rest (call_malloc n p :: cs) mem)
    /\ ptr b <> 0
    /\ size b = n
    /\ size b mod mallocator.alignment <> 0.
Proof.
  intros Hp Hn. exists (Block p n). repeat split; assumption.
Qed.

Lemma mallocator_allocate_keeps_the_requested_size_witness :
  exists b,
    mallocator.allocate mallocator.mallocator 13 (World [4096] [] ∅)
    = Some (b, mallocator.mallocator, World [] [call_malloc 13 4096] ∅)
    /\ ptr b <> 0
    /\ size b = 13
    /\ size b mod mallocator.alignment <> 0.
Proof.
  apply (mallocator_allocate_keeps_the_requested_size 13 4096 [] [] ∅).
  - discriminate.
  - discriminate.
Defined.

(** When [malloc] fails the block has the null base and, still, the size
    asked for. *)
Lemma mallocator_allocate_failure_keeps_the_size (n : Z) :
  mallocator.allocate mallocator.mallocator n scenario.exhausted
  = Some (Block 0 n, mallocator.mallocator, World [] [call_malloc n 0] ∅).
Proof. reflexivity. Qed.

(** The shared fast path of [reallocate] compares the size of the block
    with the new size rounded to the alignment: a block of 13 bytes of
    the mallocator reallocated to 13 bytes is not taken for a block of
    that size, and goes to [realloc]. *)
Lemma mallocator_reallocate_to_the_same_size_calls_realloc :
  mallocator.reallocate mallocator.mallocator (Block 4096 13) 13 (World [8192] [] ∅)
  = Some (true, Block 8192 13, mallocator.mallocator,
          World [] [call_realloc 4096 13 8192] ∅).
Proof. reflexivity. Qed.

(** * The linear arena *)

Section linear_arena.
Context {_Alignment : Z} {P : Type} `{!BufferProvider P}.
Implicit Types (la : linear_allocator.t _Alignment P) (b : block) (w : world).

Lemma isLastAllocatedBlock_spec la b :
  block_in_address_space b ->
  linear_allocator.isLastAllocatedBlock la b = true <-> ptr b + size b = linear_allocator.p_ la.
Proof.
  intros (Hp & Hs & Hfit). unfold linear_allocator.isLastAllocatedBlock.
  rewrite to_size_t_small by lia. apply Z.eqb_eq.
Qed.

(** C6.  In a linear arena [deallocate(b)] rewinds the cursor to the base
    of [b] exactly when [b.ptr + b.size] is the cursor, that is when [b]
    is the last allocated block; for every other block the call changes
    nothing: not the cursor, not the buffer provider, not the world. *)
Theorem linear_deallocate_rewinds_exactly_the_last_block la b w :
  block_in_address_space b ->
  (ptr b + size b = linear_allocator.p_ la ->
     linear_allocator.deallocate la b w
     = Some (linear_allocator.Linear (linear_allocator.provider la) (ptr b), w))
  /\ (ptr b + size b <> linear_allocator.p_ la ->
     linear_allocator.deallocate la b w = Some (la, w)).
Proof.
  intros Hb. pose proof (isLastAllocatedBlock_spec la b Hb) as Hlast.
  unfold linear_allocator.deallocate.
  destruct (linear_allocator.isLastAllocatedBlock la b) eqn:E; split; intros Hc.
  - reflexivity.
  - exfalso. apply Hc, Hlast. reflexivity.
  - apply Hlast in Hc. discriminate.
  - reflexivity.
Qed.


End linear_arena.

(** The arena of the specification's scenario, after [allocate(16)] and
    [allocate(100)]: the block of 104 bytes is the last one, the block of
    16 bytes is not. *)
Lemma linear_deallocate_rewinds_exactly_the_last_block_witness :
  block_in_address_space (Block 4112 104)
  /\ (linear_allocator.deallocate (scenario.stack_arena 128 4096 4216) (Block 4112 104)
        scenario.exhausted
      = Some (scenario.stack_arena 128 4096 4112, scenario.exhausted))
  /\ (linear_allocator.deallocate (scenario.stack_arena 128 4096 4216) (Block 4096 16)
        scenario.exhausted
      = Some (scenario.stack_arena 128 4096 4216, scenario.exhausted)).
Proof.
  split; [unfold block_in_address_space; simpl; lia|]. split.
  - apply (linear_deallocate_rewinds_exactly_the_last_block
             (scenario.stack_arena 128 4096 4216) (Block 4112 104) scenario.exhausted).
    + unfold block_in_address_space; simpl; lia.
    + reflexivity.
  - apply (linear_deallocate_rewinds_exactly_the_last_block
             (scenario.stack_arena 128 4096 4216) (Block 4096 16) scenario.exhausted).
    + unfold block_in_address_space; simpl; lia.
    + simpl; lia.
Defined.

(** * The shared reallocation fast paths *)

Section fast_paths.
Context {A : Type} `{!Allocator A}.

(** When none of the fast paths applies the helper reports so and touches
    nothing. *)
Lemma handle_common_reallocation_cases_declines (a : A) (b : block) (newSize : Z) (w : world) :
  fast_path_applies (alignment A) b newSize = false ->
  handle_common_reallocation_cases a b newSize w = Some (false, b, a, w).
Proof.
  unfold fast_path_applies, handle_common_reallocation_cases. intros Hno.
  apply orb_false_elim in Hno as [Hno Hnull].
  apply orb_false_elim in Hno as [Hsame Hzero].
  rewrite Hsame, Hzero, Hnull. reflexivity.
Qed.

Lemma bind_handle_common_reallocation_cases_declines {Y : Type}
    (a : A) (b : block) (newSize : Z) (w : world) (k : bool * block * A -> M Y) :
  fast_path_applies (alignment A) b newSize = false ->
  (handle_common_reallocation_cases a b newSize ≫= k) w = k (false, b, a) w.
Proof.
  intros Hno. unfold mbind, M_bind.
  rewrite handle_common_reallocation_cases_declines by exact Hno. reflexivity.
Qed.

End fast_paths.

(** * The segregator *)

Section segregator_routing.
Context {_Threshold : Z}.
Context {_SmallAllocator : Type} `{!Allocator _SmallAllocator}.
Context `{!Reallocate _SmallAllocator} `{!Owns _SmallAllocator}.
Context {_LargeAllocator : Type} `{!Allocator _LargeAllocator}.
Context `{!Reallocate _LargeAllocator} `{!Owns _LargeAllocator}.
Implicit Types (sg : segregator.t _Threshold _SmallAllocator _LargeAllocator).
Implicit Types (b : block) (w : world).


End segregator_routing.


(** * The free list *)

Section freelist_laws.
Context {_Allocator : Type} `{!Allocator _Allocator}.
Context `{!SupportsTruncatedDeallocation _Allocator}.
Context {_MaxNodeCount _BatchedAllocations : Z}.
Implicit Types (fl : freelist.t _Allocator _MaxNodeCount _BatchedAllocations).
Implicit Types (b : block) (w : world).

Lemma pushNode_links_the_block fl p w :
  p <> 0 ->
  freelist.pushNode fl p w
  = Some (freelist.Freelist (freelist.base fl) (freelist.min_size fl) (freelist.max_size fl) p
            (to_size_t (freelist.currentNodeCount_ fl + 1)),
          World (answers w) (calls w) (<[p := freelist.pHead_ fl]> (memory w))).
Proof.
  intros Hp. unfold freelist.pushNode, assert, store, mbind, M_bind, mret, M_ret.
  destruct (Z.eqb_spec p 0) as [E|E]; [contradiction|]. reflexivity.
Qed.

Lemma popNode_unlinks_the_head fl w next :
  freelist.pHead_ fl <> 0 ->
  memory w !! freelist.pHead_ fl = Some next ->
  freelist.popNode fl w
  = Some (freelist.pHead_ fl,
          freelist.Freelist (freelist.base fl) (freelist.min_size fl) (freelist.max_size fl) next
            (to_size_t (freelist.currentNodeCount_ fl - 1)), w).
Proof.
  intros Hp Hnext. unfold freelist.popNode, load, mbind, M_bind, mret, M_ret.
  destruct (Z.eqb_spec (freelist.pHead_ fl) 0) as [E|E]; [contradiction|]. cbn.
  rewrite Hnext. reflexivity.
Qed.

(** The round trip of a block through the list.  When the free list holds
    fewer than [_MaxNodeCount] nodes and [deallocate(b)] is called for a
    block with [b.size == max], the next [allocate(n)] returns the block
    [(b.ptr, max)] for every [n] whose size rounded up to the alignment
    lies in [[min, max]]; the inner allocator is not called and the free
    list is back in the state before the [deallocate]. *)
Lemma freelist_recycles_the_deallocated_block fl b n w :
  0 <= freelist.currentNodeCount_ fl < _MaxNodeCount ->
  _MaxNodeCount <= size_t_max ->
  size b = freelist.max_size fl ->
  ptr b <> 0 ->
  freelist.isGoodSize fl (round_to_alignment n (freelist.alignment _Allocator)) = true ->
  exists w1 fl1,
    freelist.deallocate fl b w = Some (fl1, w1)
    /\ freelist.allocate fl1 n w1 = Some (Block (ptr b) (freelist.max_size fl), fl, w1).
Proof.
  intros Hcount Hmax Hsize Hptr Hgood.
  set (fl1 := @freelist.Freelist _Allocator _MaxNodeCount _BatchedAllocations
                (freelist.base fl) (freelist.min_size fl)
                (freelist.max_size fl) (ptr b) (to_size_t (freelist.currentNodeCount_ fl + 1))).
  set (w1 := World (answers w) (calls w) (<[ptr b := freelist.pHead_ fl]> (memory w))).
  exists w1, fl1. split.
  - unfold freelist.deallocate, freelist.isFull.
    destruct (Z.eqb_spec (freelist.currentNodeCount_ fl) _MaxNodeCount) as [E|E]; [lia|].
    rewrite Hsize, Z.eqb_refl. cbn [negb andb].
    now apply pushNode_links_the_block.
  - unfold freelist.allocate.
    change (freelist.isGoodSize fl1 ?s) with (freelist.isGoodSize fl s).
    rewrite Hgood.
    change (freelist.pHead_ fl1) with (ptr b).
    destruct (Z.eqb_spec (ptr b) 0) as [E|E]; [contradiction|].
    unfold mbind, M_bind, mret, M_ret.
    rewrite (popNode_unlinks_the_head fl1 w1 (freelist.pHead_ fl)).
    + cbn [freelist.pHead_ fl1].
      destruct (Z.eqb_spec (ptr b) 0) as [E'|E']; [contradiction|]. cbn [negb].
      cbn [freelist.max_size freelist.base freelist.min_size freelist.currentNodeCount_ fl1].
      unfold size_t_max in Hmax.
      rewrite (to_size_t_small (freelist.currentNodeCount_ fl + 1)) by lia.
      replace (freelist.currentNodeCount_ fl + 1 - 1) with (freelist.currentNodeCount_ fl) by lia.
      rewrite to_size_t_small by lia.
      destruct fl; reflexivity.
    + exact E.
    + cbn. apply lookup_insert_eq.
Qed.

(** With a maximum that is a multiple of the alignment every size of
    [[min, max]] is rounded to a size of [[min, max]], and the round trip
    holds for every [n] of the range. *)
Lemma freelist_recycles_every_size_of_the_range_when_max_is_aligned fl b n w :
  0 < freelist.alignment _Allocator ->
  freelist.max_size fl mod freelist.alignment _Allocator = 0 ->
  freelist.max_size fl + freelist.alignment _Allocator <= 2 ^ 64 ->
  0 <= freelist.min_size fl ->
  0 <= freelist.currentNodeCount_ fl < _MaxNodeCount ->
  _MaxNodeCount <= size_t_max ->
  size b = freelist.max_size fl ->
  ptr b <> 0 ->
  freelist.min_size fl <= n <= freelist.max_size fl ->
  exists w1 fl1,
    freelist.deallocate fl b w = Some (fl1, w1)
    /\ freelist.allocate fl1 n w1 = Some (Block (ptr b) (freelist.max_size fl), fl, w1).
Proof.
  intros Hal Hdiv Hfit Hmin Hcount Hmax Hsize Hptr Hn.
  apply freelist_recycles_the_deallocated_block; try assumption.
  destruct (round_to_alignment_spec n (freelist.alignment _Allocator) Hal ltac:(lia)
              ltac:(lia)) as [Hround _].
  pose proof (round_to_alignment_least n (freelist.alignment _Allocator) (freelist.max_size fl)
                Hal ltac:(lia) ltac:(lia) ltac:(lia) Hdiv) as Hleast.
  unfold freelist.isGoodSize. apply andb_true_intro.
  split; apply Z.leb_le; lia.
Qed.

(** C7 (the code departs from it).  [allocate] tests the range on the size
    rounded up to the alignment, not on the size asked for.  A size of
    [[min, max]] that is rounded above [max] is not served from the list:
    the block that [deallocate] has just put on the list stays there, and
    the request goes to the inner allocator, for the rounded size. *)
Theorem freelist_allocate_rounds_a_size_of_the_range_out_of_it fl b n w :
  freelist.currentNodeCount_ fl < _MaxNodeCount ->
  size b = freelist.max_size fl ->
  ptr b <> 0 ->
  freelist.min_size fl <= n <= freelist.max_size fl ->
  freelist.max_size fl < round_to_alignment n (freelist.alignment _Allocator) ->
  exists w1 fl1,
    freelist.deallocate fl b w = Some (fl1, w1)
    /\ freelist.pHead_ fl1 = ptr b
    /\ freelist.allocate fl1 n w1
       = ('(b', a) ← allocate (freelist.base fl1)
                        (round_to_alignment n (freelist.alignment _Allocator));
          mret (b', freelist.with_base fl1 a)) w1.
Proof.
  intros Hcount Hsize Hptr Hn Hround.
  eexists _, _. split; [|split].
  - unfold freelist.deallocate, freelist.isFull.
    destruct (Z.eqb_spec (freelist.currentNodeCount_ fl) _MaxNodeCount) as [E|E]; [lia|].
    rewrite Hsize, Z.eqb_refl. cbn [negb andb].
    now apply pushNode_links_the_block.
  - reflexivity.
  - unfold freelist.allocate, freelist.isGoodSize.
    cbn [freelist.min_size freelist.max_size].
    destruct (Z.leb_spec (round_to_alignment n (freelist.alignment _Allocator))
                (freelist.max_size fl)) as [Hle|_]; [lia|].
    rewrite andb_false_r. reflexivity.
Qed.

(** C2 (the code departs from it).  Past the shared fast paths,
    [reallocate] of the free list answers [true] as soon as the aligned
    new size lies in [[min, max]], and leaves the block and the allocator
    as they are: it never looks at the size of the block. *)
Theorem freelist_reallocate_accepts_without_growing fl b newSize w :
  fast_path_applies (freelist.alignment _Allocator) b newSize = false ->
  freelist.isGoodSize fl (round_to_alignment newSize (freelist.alignment _Allocator)) = true ->
  freelist.reallocate fl b newSize w = Some (true, b, fl, w).
Proof.
  intros Hslow Hgood. unfold freelist.reallocate.
  rewrite bind_handle_common_reallocation_cases_declines by exact Hslow.
  cbv beta iota. rewrite Hgood. reflexivity.
Qed.

End freelist_laws.

(** The free list of the specification's scenario after its first
    allocation: the block it handed out comes back, and a request of 48
    bytes gets it again. *)
Lemma freelist_recycles_the_deallocated_block_witness :
  exists w1 fl1,
    freelist.deallocate (scenario.freelist_over_arena 8 64 4224 3 4352) (Block 4288 64)
      scenario.carved_by_64
    = Some (fl1, w1)
    /\ freelist.allocate fl1 48 w1
       = Some (Block 4288 64, scenario.freelist_over_arena 8 64 4224 3 4352, w1).
Proof.
  apply (freelist_recycles_the_deallocated_block
           (scenario.freelist_over_arena 8 64 4224 3 4352) (Block 4288 64) 48
           scenario.carved_by_64).
  - simpl. lia.
  - unfold size_t_max. lia.
  - reflexivity.
  - simpl. lia.
  - reflexivity.
Defined.

(** The free list for the sizes from 8 to 60 over an arena aligned on 8,
    after its first allocation: the block [(4276, 60)] it handed out is
    given back, and the next [allocate(60)] is not served from the list. *)
Lemma freelist_allocate_rounds_a_size_of_the_range_out_of_it_witness :
  exists w1 fl1,
    freelist.deallocate (scenario.freelist_over_arena 8 60 4216 3 4336) (Block 4276 60)
      scenario.carved_by_60
    = Some (fl1, w1)
    /\ freelist.pHead_ fl1 = ptr (Block 4276 60)
    /\ freelist.allocate fl1 60 w1
       = ('(b', a) ← allocate (freelist.base fl1)
                        (round_to_alignment 60
                           (freelist.alignment (stack_linear_allocator 1024 8)));
          mret (b', freelist.with_base fl1 a)) w1.
Proof.
  apply (freelist_allocate_rounds_a_size_of_the_range_out_of_it
           (scenario.freelist_over_arena 8 60 4216 3 4336) (Block 4276 60) 60
           scenario.carved_by_60).
  - simpl. lia.
  - reflexivity.
  - simpl. lia.
  - simpl. lia.
  - apply Z.ltb_lt. reflexivity.
Defined.

(** The same run, value by value.  The list holds 3 nodes out of 8; the
    block [(4276, 60)] is given back and becomes the head of the list; the
    next [allocate(60)], with 60 in [[8, 60]], rounds the size to 64,
    finds it out of range and takes a fresh block of 64 bytes from the
    arena, at another address. *)
Lemma freelist_misses_the_recycled_block_when_max_is_unaligned :
  freelist.currentNodeCount_ (scenario.freelist_over_arena 8 60 4216 3 4336) < 8
  /\ size (Block 4276 60) = freelist.max_size (scenario.freelist_over_arena 8 60 4216 3 4336)
  /\ freelist.min_size (scenario.freelist_over_arena 8 60 4216 3 4336) <= 60
     <= freelist.max_size (scenario.freelist_over_arena 8 60 4216 3 4336)
  /\ freelist.deallocate (scenario.freelist_over_arena 8 60 4216 3 4336) (Block 4276 60)
       scenario.carved_by_60
     = Some (scenario.freelist_over_arena 8 60 4276 4 4336, scenario.carved_by_60)
  /\ freelist.allocate (scenario.freelist_over_arena 8 60 4276 4 4336) 60 scenario.carved_by_60
     = Some (Block 4336 64, scenario.freelist_over_arena 8 60 4276 4 4400,
             scenario.carved_by_60)
  /\ ptr (Block 4336 64) <> ptr (Block 4276 60).
Proof.
  split; [simpl; lia|]. split; [reflexivity|]. split; [simpl; lia|].
  split; [vm_compute; reflexivity|]. split; [vm_compute; reflexivity|].
  simpl. lia.
Qed.

(** A free list for the sizes from 32 to 64: a request of 16 bytes goes to
    the arena, and the block of 16 bytes it gets is then "grown" to 48
    bytes without a byte more. *)
Lemma freelist_reallocate_accepts_without_growing_witness :
  freelist.allocate (scenario.freelist_over_arena 32 64 0 0 4096) 16 scenario.exhausted
  = Some (Block 4096 16, scenario.freelist_over_arena 32 64 0 0 4112, scenario.exhausted)
  /\ freelist.reallocate (scenario.freelist_over_arena 32 64 0 0 4112) (Block 4096 16) 48
       scenario.exhausted
     = Some (true, Block 4096 16, scenario.freelist_over_arena 32 64 0 0 4112,
             scenario.exhausted)
  /\ size (Block 4096 16) < 48.
Proof.
  split; [reflexivity|]. split; [|simpl; lia].
  apply (freelist_reallocate_accepts_without_growing
           (scenario.freelist_over_arena 32 64 0 0 4112) (Block 4096 16) 48 scenario.exhausted).
  - reflexivity.
  - reflexivity.
Defined.

(** * The affix allocator *)

Section affix_laws.
Context {_Allocator : Type} `{!Allocator _Allocator}.
Context {_Prefix _Suffix : affix}.
Implicit Types (aa : affix_allocator.t _Allocator _Prefix _Suffix) (w : world).

Lemma affix_size_range (a : affix) : 0 <= affix_allocator.affix_size _Allocator a < 2 ^ 64.
Proof.
  destruct a; cbn; [lia|]. unfold round_to_alignment. apply to_size_t_range.
Qed.

(** Stripping the affixes off the null block gives a block that is not
    null: its base is the size of the prefix, or, without a prefix, its
    size has wrapped below zero by the size of the suffix. *)
Lemma toStrippedBlock_of_nullblock_is_not_null :
  affix_allocator.static_asserts _Allocator _Prefix _Suffix = true ->
  is_nullblock (affix_allocator.toStrippedBlock _Allocator _Prefix _Suffix nullblock) = false.
Proof.
  intros Hstatic.
  pose proof (affix_size_range _Prefix) as Hpre.
  pose proof (affix_size_range _Suffix) as Hsuf.
  unfold affix_allocator.static_asserts in Hstatic.
  unfold is_nullblock, affix_allocator.toStrippedBlock, nullblock. cbn [ptr size].
  unfold affix_allocator.prefix_size, affix_allocator.suffix_size in *.
  set (pre := affix_allocator.affix_size _Allocator _Prefix) in *.
  set (suf := affix_allocator.affix_size _Allocator _Suffix) in *.
  destruct (Z.eqb_spec pre 0) as [Epre|Epre].
  - destruct (Z.eqb_spec suf 0) as [Esuf|Esuf]; [discriminate|].
    rewrite Epre. replace (0 - 0) with 0 by lia. rewrite (to_size_t_small 0) by lia.
    rewrite to_size_t_below_zero by lia.
    apply andb_false_intro2. apply Z.eqb_neq. lia.
  - rewrite (to_size_t_small (0 + pre)) by lia.
    apply andb_false_intro1. apply Z.eqb_neq. lia.
Qed.

(** C3 (the code departs from it).  When the inner allocator answers the
    request of the affix allocator with the null block, the affix
    allocator strips the affixes off that null block and returns the
    result, which is not the null block. *)
Theorem affix_allocate_hides_the_failure_of_the_inner_allocator aa n w a' w' :
  affix_allocator.static_asserts _Allocator _Prefix _Suffix = true ->
  allocate (affix_allocator.base aa)
    (to_size_t (to_size_t (affix_allocator.prefix_size _Allocator _Prefix + n)
                + affix_allocator.suffix_size _Allocator _Suffix)) w
  = Some (nullblock, a', w') ->
  exists b,
    affix_allocator.allocate aa n w = Some (b, affix_allocator.Affix a', w')
    /\ b = affix_allocator.toStrippedBlock _Allocator _Prefix _Suffix nullblock
    /\ is_nullblock b = false.
Proof.
  intros Hstatic Hinner.
  exists (affix_allocator.toStrippedBlock _Allocator _Prefix _Suffix nullblock).
  split; [|split].
  - unfold affix_allocator.allocate, mbind, M_bind. rewrite Hinner. reflexivity.
  - reflexivity.
  - now apply toStrippedBlock_of_nullblock_is_not_null.
Qed.

End affix_laws.

(** A header of 8 bytes over the null allocator: [allocate(24)] returns
    the block at address 8 of [2 ^ 64 - 8] bytes. *)
Lemma affix_allocate_hides_the_failure_of_the_inner_allocator_witness :
  exists b,
    affix_allocator.allocate scenario.headed_null 24 scenario.exhausted
    = Some (b, scenario.headed_null, scenario.exhausted)
    /\ b = Block 8 (2 ^ 64 - 8)
    /\ is_nullblock b = false.
Proof.
  destruct (affix_allocate_hides_the_failure_of_the_inner_allocator
              scenario.headed_null 24 scenario.exhausted
              null_allocator.null_allocator scenario.exhausted)
    as (b & Hrun & Hb & Hnull); [reflexivity|reflexivity|].
  exists b. split; [exact Hrun|]. split; [|exact Hnull].
  rewrite Hb. reflexivity.
Defined.

(** * The bucketizer *)

Section bucketizer_laws.
Context {_Allocator : Type} `{!Allocator _Allocator} `{!Reallocate _Allocator}.

(** C4 (the code departs from it).  The bucketizer tests the new size
    against its range before it comes to the shared fast paths: over a
    range that starts above zero, [reallocate(b, 0)] answers [false] for
    every block and deallocates nothing. *)
Theorem bucketizer_reallocate_refuses_the_zero_size
    {_RangeRaider : Type} `{!RangeRaider _RangeRaider}
    (bz : bucketizer.t _Allocator _RangeRaider) (b : block) (w : world) :
  0 < raider_min _RangeRaider ->
  bucketizer.reallocate bz b 0 w = Some (false, b, bz, w).
Proof.
  intros Hmin. unfold bucketizer.reallocate, bucketizer.isGoodSize.
  destruct (Z.leb_spec (raider_min _RangeRaider) 0); [lia|]. reflexivity.
Qed.

(** C5 (the code departs from it).  Each raider sends one endpoint of the
    range out of the array of buckets.  The linear raider gives the
    maximum the index [num_steps]; the power-of-two raider gives the
    minimum the index [size_t(-1)].  Both sizes pass [isGoodSize], so
    that [allocate] reads [buckets_] out of bounds. *)
Theorem bucketizer_misroutes_an_endpoint_of_its_range :
  (forall (_Min _Max _Step : Z)
          (bz : bucketizer.t _Allocator (linear_range_raider.t _Min _Max _Step)) (w : world),
      0 <= _Min < _Max -> _Max < 2 ^ 64 -> 0 < _Step ->
      Z.of_nat (length (bucketizer.buckets_ bz))
      = num_steps (linear_range_raider.t _Min _Max _Step) ->
      range_t.is_in_range _Min _Max _Max = true
      /\ step_index (linear_range_raider.t _Min _Max _Step) _Max
         = num_steps (linear_range_raider.t _Min _Max _Step)
      /\ bucketizer.allocate bz _Max w = None)
  /\ (forall (j k : Z)
            (bz : bucketizer.t _Allocator (pow2_range_raider.t (2 ^ j) (2 ^ k))) (w : world),
      0 <= j < k -> k < 64 ->
      Z.of_nat (length (bucketizer.buckets_ bz))
      = num_steps (pow2_range_raider.t (2 ^ j) (2 ^ k)) ->
      range_t.is_in_range (2 ^ j) (2 ^ k) (2 ^ j) = true
      /\ step_index (pow2_range_raider.t (2 ^ j) (2 ^ k)) (2 ^ j) = invalid_index
      /\ bucketizer.allocate bz (2 ^ j) w = None).
Proof.
  split.
  - intros _Min _Max _Step bz w Hrange Hmax Hstep Hlen.
    cbn [num_steps step_index linear_range_raider.raider_of] in *.
    assert (Hin : range_t.is_in_range _Min _Max _Max = true).
    { unfold range_t.is_in_range. apply andb_true_intro. split; apply Z.leb_le; lia. }
    assert (Hidx : linear_range_raider.step_index _Min _Max _Step _Max
                   = linear_range_raider.num_steps _Min _Max _Step).
    { unfold linear_range_raider.step_index. rewrite Hin. reflexivity. }
    repeat split; [exact Hin|exact Hidx|].
    unfold bucketizer.allocate, bucketizer.isGoodSize, bucketizer.bucketIndex.
    cbn [raider_min raider_max step_index linear_range_raider.raider_of].
    unfold range_t.min, range_t.max.
    unfold range_t.is_in_range in Hin. rewrite Hin.
    unfold mbind, M_bind. rewrite array_at_out_of_bounds; [reflexivity|].
    rewrite Hidx, Hlen. lia.
  - intros j k bz w Hjk Hk Hlen.
    cbn [num_steps step_index pow2_range_raider.raider_of] in *.
    assert (Hj : 0 <= j < 64) by lia. assert (Hk' : 0 <= k < 64) by lia.
    pose proof (pow2_range j Hj) as Hpj. pose proof (pow2_range k Hk') as Hpk.
    assert (Hle : 2 ^ j <= 2 ^ k) by (apply Z.pow_le_mono_r; lia).
    assert (Hin : range_t.is_in_range (2 ^ j) (2 ^ k) (2 ^ j) = true).
    { unfold range_t.is_in_range. apply andb_true_intro. split; apply Z.leb_le; lia. }
    assert (Hidx : pow2_range_raider.step_index (2 ^ j) (2 ^ j) = invalid_index).
    { unfold pow2_range_raider.step_index, pow2_range_raider.pow2bit_min_index, next_pow2.
      rewrite is_pow2_pow2 by lia. rewrite last_bit_set_pow2 by lia.
      rewrite Z.sub_diag. rewrite (to_size_t_small 0) by lia.
      rewrite to_size_t_below_zero by lia. reflexivity. }
    repeat split; [exact Hin|exact Hidx|].
    unfold bucketizer.allocate, bucketizer.isGoodSize, bucketizer.bucketIndex.
    cbn [raider_min raider_max step_index pow2_range_raider.raider_of].
    unfold range_t.min, range_t.max.
    unfold range_t.is_in_range in Hin. rewrite Hin.
    unfold mbind, M_bind. rewrite array_at_out_of_bounds; [reflexivity|].
    rewrite Hidx, Hlen.
    unfold pow2_range_raider.num_steps, pow2_range_raider.pow2bit_max_index,
      pow2_range_raider.pow2bit_min_index.
    rewrite !last_bit_set_pow2 by lia. rewrite to_size_t_small by lia.
    unfold invalid_index, size_t_max. lia.
Qed.


(** Under the [static_assert]s of the linear raider every size from the
    minimum up to, but not including, the maximum has an index below
    [num_steps]. *)
Lemma linear_step_index_below_num_steps (_Min _Max _Step n : Z) :
  0 <= _Min -> _Max < 2 ^ 64 -> 0 < _Step ->
  (_Max - _Min) mod _Step = 0 ->
  _Min <= n < _Max ->
  0 <= step_index (linear_range_raider.t _Min _Max _Step) n
    < num_steps (linear_range_raider.t _Min _Max _Step).
Proof.
  intros Hmin Hmax Hstep Hdiv Hn.
  cbn [step_index num_steps linear_range_raider.raider_of].
  unfold linear_range_raider.step_index, linear_range_raider.num_steps, range_t.is_in_range.
  destruct (Z.leb_spec _Min n); [|lia]. destruct (Z.leb_spec n _Max); [|lia]. cbn [andb].
  rewrite !to_size_t_small by lia.
  split; [apply Z.div_pos; lia|].
  apply Z.div_lt_upper_bound; [lia|].
  rewrite <- Z_div_exact_full_2 by lia. lia.
Qed.

End bucketizer_laws.

(** Seven buckets of free lists for the sizes from 8 to 64: a block of 32
    bytes is allocated, and [reallocate] to zero leaves it allocated. *)
Lemma bucketizer_reallocate_refuses_the_zero_size_witness :
  outcome (bucketizer.allocate scenario.linear_buckets 32) (scenario.heap_answering [65536])
  = Some (Block 65536 32, scenario.linear_buckets)
  /\ bucketizer.reallocate scenario.linear_buckets (Block 65536 32) 0
       (World [] [call_malloc 32 65536] ∅)
     = Some (false, Block 65536 32, scenario.linear_buckets,
             World [] [call_malloc 32 65536] ∅).
Proof.
  split; [reflexivity|].
  apply (bucketizer_reallocate_refuses_the_zero_size
           scenario.linear_buckets (Block 65536 32) (World [] [call_malloc 32 65536] ∅)).
  reflexivity.
Defined.

(** The buckets for the sizes from 8 to 64, in steps of 8 and in powers of
    two: [allocate(64)] of the first and [allocate(8)] of the second
    fault. *)
Lemma bucketizer_misroutes_an_endpoint_of_its_range_witness :
  (range_t.is_in_range 8 64 64 = true
   /\ step_index (linear_range_raider.t 8 64 8) 64 = num_steps (linear_range_raider.t 8 64 8)
   /\ bucketizer.allocate scenario.linear_buckets 64 scenario.exhausted = None)
  /\ (range_t.is_in_range (2 ^ 3) (2 ^ 6) (2 ^ 3) = true
      /\ step_index (pow2_range_raider.t (2 ^ 3) (2 ^ 6)) (2 ^ 3) = invalid_index
      /\ bucketizer.allocate scenario.pow2_buckets (2 ^ 3) scenario.exhausted = None).
Proof.
  split.
  - apply (proj1 (bucketizer_misroutes_an_endpoint_of_its_range
                    (_Allocator := freelist.t mallocator.t 8 4))
             8 64 8 scenario.linear_buckets scenario.exhausted).
    + lia.
    + reflexivity.
    + lia.
    + reflexivity.
  - apply (proj2 (bucketizer_misroutes_an_endpoint_of_its_range
                    (_Allocator := freelist.t mallocator.t 8 4))
             3 6 scenario.pow2_buckets scenario.exhausted).
    + lia.
    + lia.
    + reflexivity.
Defined.

(** * The cascading allocator *)

(** ** What the program holds of the heap *)

Lemma remove_one_elem_of (p : Z) (l : list Z) : p ∈ l -> l ≡ₚ p :: remove_one p l.
Proof.
  induction l as [|q l IH]; intros Hin; [now apply elem_of_nil in Hin|].
  cbn [remove_one]. destruct (Z.eqb_spec p q) as [->|Hne]; [reflexivity|].
  apply elem_of_cons in Hin as [->|Hin]; [contradiction|].
  rewrite (IH Hin) at 1. apply Permutation_swap.
Qed.

Lemma remove_one_Permutation (p : Z) (l k : list Z) : l ≡ₚ p :: k -> remove_one p l ≡ₚ k.
Proof.
  intros Hperm. apply (Permutation_cons_inv (a := p)).
  rewrite <- Hperm. symmetry. apply remove_one_elem_of.
  rewrite Hperm. apply list_elem_of_here.
Qed.

(** Freeing pointers that the program holds leaves it with the others. *)
Lemma held_pointers_after_frees (ps others : list Z) (cs : list libc_call) :
  held_pointers cs ≡ₚ ps ++ others ->
  held_pointers (map call_free ps ++ cs) ≡ₚ others.
Proof.
  revert others. induction ps as [|p ps IH]; intros others Hheld; [exact Hheld|].
  cbn [map app held_pointers]. apply remove_one_Permutation.
  apply IH. rewrite Hheld. cbn [app]. apply Permutation_middle.
Qed.

(** ** Cascades of linear arenas on the heap *)

Section cascade_of_heap_arenas.
Context {_BufferSize _Alignment sizeof_node : Z} {_InitMode : BufferInitMode}.
Abbreviation heap_arena :=
  (heap_linear_allocator _BufferSize _Alignment _InitMode mallocator.t).
Implicit Types (ca : cascading_allocator.t heap_arena sizeof_node) (w : world).

(** Erasing nodes whose arenas hold a buffer gives every buffer back to
    the system heap, the buffer of the last node first, and does nothing
    else. *)
Lemma eraseNode_frees_every_buffer (nodeAllocatedSize : Z)
    (ns : list (cascading_allocator.node heap_arena)) w :
  Forall (fun n => buffer_of n <> 0) ns ->
  cascading_allocator.eraseNode nodeAllocatedSize ns w
  = Some (tt, World (answers w) (map (fun n => call_free (buffer_of n)) ns ++ calls w)
                (memory w)).
Proof.
  induction 1 as [|n ns Hn _ IH].
  - destruct w; reflexivity.
  - cbn [cascading_allocator.eraseNode]. unfold mbind, M_bind at 1. rewrite IH.
    unfold buffer_of in Hn.
    destruct n as [[[a buf] cursor] addr]. cbn in Hn.
    cbn [cascading_allocator.allocator_ cascading_allocator.address].
    unfold mbind, M_bind, deallocate, linear_allocator.allocator, linear_allocator.deallocate.
    destruct (linear_allocator.isLastAllocatedBlock _ _);
      cbv [destroy linear_allocator.destructible heap_buffer_provider.destructible
           heap_buffer_provider.destroy mallocator.destructible
           linear_allocator.provider heap_buffer_provider.buffer_ heap_buffer_provider.base
           heap_buffer_provider.size deallocate mallocator.allocator mallocator.deallocate
           free record_call mbind M_bind mret M_ret ptr negb answers calls memory app map
           buffer_of cascading_allocator.allocator_];
      destruct (Z.eqb_spec buf 0) as [E|E]; try contradiction; reflexivity.
Qed.

(** An arena that has its buffer allocates out of it: the buffer
    provider and the world stay as they are. *)
Lemma heap_arena_allocate_keeps_the_buffer (la : heap_arena) (n : Z) w b la' w' :
  heap_buffer_provider.buffer_ (linear_allocator.provider la) <> 0 ->
  linear_allocator.allocate la n w = Some (b, la', w') ->
  linear_allocator.provider la' = linear_allocator.provider la /\ w' = w.
Proof.
  intros Hbuf Hrun. destruct la as [[a buf] cursor]. cbn in Hbuf.
  unfold linear_allocator.allocate in Hrun.
  destruct (negb _) in Hrun.
  - injection Hrun as _ <- <-. split; reflexivity.
  - cbv [mbind M_bind mret M_ret init heap_buffer_provider.provider heap_buffer_provider.init
         linear_allocator.provider linear_allocator.p_ heap_buffer_provider.buffer_] in Hrun.
    destruct (Z.eqb_spec buf 0) as [E|_]; [contradiction|].
    rewrite andb_false_r in Hrun. injection Hrun as _ <- <-. split; reflexivity.
Qed.

Lemma allocateNoGrow_loop_keeps_the_buffers
    (ns : list (cascading_allocator.node heap_arena)) (b0 : block) (n : Z) w b ns' w' :
  Forall has_its_buffer ns ->
  cascading_allocator.allocateNoGrow_loop b0 ns n w = Some (b, ns', w') ->
  Forall has_its_buffer ns' /\ w' = w.
Proof.
  revert b0 b ns' w'. induction ns as [|node ns IH]; intros b0 b ns' w' Hnodes Hrun.
  - injection Hrun as _ <- <-. split; [constructor|reflexivity].
  - apply Forall_cons in Hnodes as [Hnode Hnodes].
    cbn [cascading_allocator.allocateNoGrow_loop] in Hrun.
    unfold mbind at 1, M_bind at 1 in Hrun.
    destruct (allocate (cascading_allocator.allocator_ node) n w) as [[[b1 a1] w1]|] eqn:Halloc;
      [|discriminate].
    apply heap_arena_allocate_keeps_the_buffer in Halloc as [Hprovider ->];
      [|unfold has_its_buffer, buffer_of in Hnode; lia].
    assert (Hnode' : has_its_buffer (cascading_allocator.Node a1 (cascading_allocator.address node))).
    { unfold has_its_buffer, buffer_of in *. cbn [cascading_allocator.allocator_].
      rewrite Hprovider. exact Hnode. }
    destruct (negb (ptr b1 =? 0)).
    + injection Hrun as _ <- <-. split; [now constructor|reflexivity].
    + unfold mbind, M_bind in Hrun.
      destruct (cascading_allocator.allocateNoGrow_loop b1 ns n w) as [[[b2 ns2] w2]|] eqn:Hrest;
        [|discriminate].
      apply IH in Hrest as [Hrest ->]; [|exact Hnodes].
      injection Hrun as _ <- <-. split; [now constructor|reflexivity].
Qed.

(** [createNode] makes a node only around a buffer that the heap has
    answered, and no node when the heap answers null. *)
Lemma createNode_gives_the_node_its_buffer ca w r ca' w' :
  _BufferSize <> dynamic_value ->
  0 <= _BufferSize ->
  heap_answers_with_room _BufferSize w ->
  cascading_allocator.createNode ca w = Some (r, ca', w') ->
  cascading_allocator.nodes ca' = cascading_allocator.nodes ca
  /\ heap_answers_with_room _BufferSize w'
  /\ match r with
     | Some node => has_its_buffer node
     | None => True
     end.
Proof.
  intros Hsize Hnonneg Hheap Hrun.
  assert (Hdyn : is_dynamic_value _BufferSize = false).
  { unfold is_dynamic_value. destruct (Z.eqb_spec _BufferSize dynamic_value);
      [contradiction|reflexivity]. }
  unfold heap_answers_with_room in *. destruct w as [ps cs mem]. cbn [answers] in Hheap.
  assert (Hnext : exists p ps',
             next_answer (World ps cs mem) = Some (p, World ps' cs mem)
             /\ (p = 0 \/ (0 < p /\ p + _BufferSize < 2 ^ 64))
             /\ Forall (fun p => p = 0 \/ (0 < p /\ p + _BufferSize < 2 ^ 64)) ps').
  { destruct ps as [|p ps].
    - exists 0, []. split; [reflexivity|]. split; [now left|constructor].
    - apply Forall_cons in Hheap as [Hp Hps]. exists p, ps. split; [reflexivity|].
      split; assumption. }
  destruct Hnext as (p & ps' & Hnext & Hp & Hps').
  unfold cascading_allocator.createNode in Hrun.
  destruct _InitMode;
    cbv [mbind M_bind mret M_ret construct linear_allocator.constructible
         linear_allocator.construct heap_buffer_provider.constructible
         heap_buffer_provider.construct mallocator.constructible is_lazy_init orb andb
         allocate linear_allocator.allocator linear_allocator.allocate
         linear_allocator.hasEnoughSpace linear_allocator.end_ linear_allocator.align
         linear_allocator.alignment linear_allocator.provider linear_allocator.p_
         buffer_ buffer_size init heap_buffer_provider.provider heap_buffer_provider.buffer_
         heap_buffer_provider.size heap_buffer_provider.init heap_buffer_provider.base
         mallocator.allocator mallocator.allocate malloc record_call assert
         destroy linear_allocator.destructible heap_buffer_provider.destructible
         heap_buffer_provider.destroy mallocator.destructible deallocate
         mallocator.deallocate free ptr size nullblock] in Hrun;
    rewrite ?Hdyn in Hrun; cbv beta iota in Hrun.
  - (* the buffer is taken by the first allocation *)
    destruct (negb _) in Hrun.
    + change (0 =? 0) with true in Hrun. cbv beta iota delta [negb] in Hrun.
      injection Hrun as <- <- <-.
      split; [reflexivity|]. split; [exact Hheap|exact I].
    + change (0 =? 0) with true in Hrun. cbv beta iota delta [negb] in Hrun.
      rewrite Hnext in Hrun. cbv beta iota delta [answers calls memory] in Hrun.
      destruct (Z.eqb_spec p 0) as [E|E]; cbv beta iota in Hrun.
      * injection Hrun as <- <- <-.
        split; [reflexivity|]. split; [exact Hps'|exact I].
      * destruct (if _ =? 0 then true else _) in Hrun; [|discriminate].
        cbv beta iota in Hrun. injection Hrun as <- <- <-.
        split; [reflexivity|]. split; [exact Hps'|].
        unfold has_its_buffer, buffer_of. cbn. lia.
  - (* the buffer is taken at construction *)
    rewrite Hnext in Hrun. cbv beta iota delta [answers calls memory] in Hrun.
    destruct (negb (_ <=? _)) in Hrun; cbv beta iota in Hrun.
    + change (0 =? 0) with true in Hrun. cbv beta iota in Hrun.
      destruct (negb (p =? 0)) in Hrun; cbv beta iota in Hrun;
        injection Hrun as <- <- <-; (split; [reflexivity|]); (split; [exact Hps'|exact I]).
    + destruct (Z.eqb_spec p 0) as [E|E]; cbv beta iota delta [negb] in Hrun.
      * injection Hrun as <- <- <-.
        split; [reflexivity|]. split; [exact Hps'|exact I].
      * destruct (if _ =? 0 then true else _) in Hrun; [|discriminate].
        cbv beta iota in Hrun. injection Hrun as <- <- <-.
        split; [reflexivity|]. split; [exact Hps'|].
        unfold has_its_buffer, buffer_of. cbn. lia.
Qed.

(** Every node of a cascade has its buffer, from the construction on:
    [allocate], which alone adds nodes, keeps it so, as long as the heap
    answers with null or with a buffer of the address space. *)
Lemma cascading_allocate_keeps_every_node_its_buffer ca (n : Z) w b ca' w' :
  _BufferSize <> dynamic_value ->
  0 <= _BufferSize ->
  Forall has_its_buffer (cascading_allocator.nodes ca) ->
  heap_answers_with_room _BufferSize w ->
  cascading_allocator.allocate ca n w = Some (b, ca', w') ->
  Forall has_its_buffer (cascading_allocator.nodes ca')
  /\ heap_answers_with_room _BufferSize w'.
Proof.
  intros Hsize Hnonneg Hnodes Hheap Hrun.
  unfold cascading_allocator.allocate, cascading_allocator.allocateNoGrow in Hrun.
  unfold mbind, M_bind in Hrun.
  destruct (cascading_allocator.allocateNoGrow_loop (Block 0 0) (cascading_allocator.nodes ca)
              n w) as [[[b1 ns1] w1]|] eqn:Hloop; [|discriminate].
  apply allocateNoGrow_loop_keeps_the_buffers in Hloop as [Hnodes1 ->]; [|exact Hnodes].
  unfold mret, M_ret in Hrun.
  destruct (negb (ptr b1 =? 0)).
  - injection Hrun as _ <- <-. split; assumption.
  - unfold cascading_allocator.prependNode, mbind, M_bind in Hrun.
    destruct (cascading_allocator.createNode _ w) as [[[r ca1] w1]|] eqn:Hcreate;
      [|discriminate].
    apply createNode_gives_the_node_its_buffer in Hcreate as (Hsame & Hheap1 & Hnew);
      try assumption.
    cbn [cascading_allocator.nodes] in Hsame.
    destruct r as [node|].
    + unfold mret, M_ret, cascading_allocator.node_allocate in Hrun.
      cbn [cascading_allocator.nodes lookup list_lookup] in Hrun.
      unfold mbind, M_bind in Hrun.
      destruct (allocate (cascading_allocator.allocator_ node) n w1)
        as [[[b2 a2] w2]|] eqn:Halloc; [|discriminate].
      apply heap_arena_allocate_keeps_the_buffer in Halloc as [Hprovider ->];
        [|unfold has_its_buffer, buffer_of in Hnew; lia].
      injection Hrun as _ <- <-. split; [|exact Hheap1].
      cbn [cascading_allocator.nodes list_insert]. constructor.
      * unfold has_its_buffer, buffer_of in *. cbn [cascading_allocator.allocator_].
        rewrite Hprovider. exact Hnew.
      * rewrite Hsame. exact Hnodes1.
    + injection Hrun as _ <- <-. split; [|exact Hheap1]. rewrite Hsame. exact Hnodes1.
Qed.

(** C8, as the code has it.  In a cascade of linear arenas on the heap
    every node has the buffer of its arena.  On a cascade without nodes
    [deallocateAll] returns at once and the list stays empty.  On a
    cascade with a head and a tail the call returns a list of exactly one
    node: every node of the tail has been erased, which has given the
    buffer of its arena back to the heap, once, the last node first; the
    arena of the head has been reset and holds nothing but the block of
    [sizeof(node)] bytes, cut anew at the start of its buffer, in which
    the head lives again.  Nothing leaks: of the buffers of the nodes,
    the program holds the buffer of the node that is left and no other,
    and what it held besides them it holds as before. *)
Theorem cascading_deallocateAll_collapses_to_the_head ca w :
  0 < _Alignment ->
  0 <= sizeof_node ->
  sizeof_node + _Alignment <= 2 ^ 64 ->
  round_to_alignment sizeof_node _Alignment <= _BufferSize ->
  Forall has_its_buffer (cascading_allocator.nodes ca) ->
  (cascading_allocator.nodes ca = [] ->
     cascading_allocator.deallocateAll ca w = Some (ca, w))
  /\ (forall head tail,
        cascading_allocator.nodes ca = head :: tail ->
        exists ca' w',
          cascading_allocator.deallocateAll ca w = Some (ca', w')
          /\ length (cascading_allocator.nodes ca') = 1%nat
          /\ cascading_allocator.nodes ca'
             = [cascading_allocator.Node
                  (linear_allocator.Linear
                     (linear_allocator.provider (cascading_allocator.allocator_ head))
                     (buffer_of head + round_to_alignment sizeof_node _Alignment))
                  (buffer_of head)]
          /\ cascading_allocator.nodeAllocatedSize_ ca'
             = cascading_allocator.nodeAllocatedSize_ ca
          /\ answers w' = answers w
          /\ memory w' = memory w
          /\ calls w' = map (fun n => call_free (buffer_of n)) tail ++ calls w
          /\ (forall others,
                held_pointers (calls w)
                  ≡ₚ map buffer_of (cascading_allocator.nodes ca) ++ others ->
                held_pointers (calls w')
                  ≡ₚ map buffer_of (cascading_allocator.nodes ca') ++ others)).
Proof.
  intros Hal Hsz Hfit Hroom Hnodes. split.
  - intros Hnil. unfold cascading_allocator.deallocateAll. rewrite Hnil. reflexivity.
  - intros head tail Hlist. rewrite Hlist in Hnodes.
    apply Forall_cons in Hnodes as [[Hbuf Hspace] Htail].
    assert (Hlive : Forall (fun n : cascading_allocator.node heap_arena => buffer_of n <> 0)
                      tail).
    { eapply Forall_impl; [exact Htail|]. cbn. intros n [Hn _]. lia. }
    unfold has_its_buffer in Hbuf, Hspace.
    pose proof (round_to_alignment_spec sizeof_node _Alignment Hal Hsz Hfit) as [Hround _].
    set (head' := cascading_allocator.Node
                    (linear_allocator.Linear
                       (linear_allocator.provider (cascading_allocator.allocator_ head))
                       (buffer_of head + round_to_alignment sizeof_node _Alignment))
                    (buffer_of head) : cascading_allocator.node heap_arena).
    exists (cascading_allocator.Cascade [head'] (cascading_allocator.nodeAllocatedSize_ ca)),
      (World (answers w) (map (fun n => call_free (buffer_of n)) tail ++ calls w) (memory w)).
    split; [|split; [reflexivity|split; [reflexivity|split; [reflexivity|
             split; [reflexivity|split; [reflexivity|split; [reflexivity|]]]]]]].
    + unfold cascading_allocator.deallocateAll. rewrite Hlist.
      unfold mbind, M_bind at 1. rewrite eraseNode_frees_every_buffer by exact Hlive.
      subst head'. unfold buffer_of in *. destruct head as [[[a buf] cursor] addr].
      cbn [cascading_allocator.allocator_ linear_allocator.provider
           heap_buffer_provider.buffer_] in *.
      set (aligned := round_to_alignment sizeof_node _Alignment) in *.
      cbv [mbind M_bind mret M_ret deallocateAll linear_allocator.arena
           linear_allocator.deallocateAll allocate linear_allocator.allocator
           linear_allocator.allocate linear_allocator.hasEnoughSpace linear_allocator.end_
           linear_allocator.align linear_allocator.alignment
           linear_allocator.provider linear_allocator.p_
           buffer_ buffer_size init heap_buffer_provider.provider heap_buffer_provider.buffer_
           heap_buffer_provider.size heap_buffer_provider.init].
      fold aligned.
      rewrite (to_size_t_small (buf + aligned)) by lia.
      rewrite (to_size_t_small (buf + _BufferSize)) by lia.
      destruct (Z.leb_spec (buf + aligned) (buf + _BufferSize)) as [_|Hno]; [|lia].
      cbn [negb]. destruct (Z.eqb_spec buf 0) as [E|_]; [lia|].
      rewrite andb_false_r. cbn [ptr].
      destruct (Z.eqb_spec buf 0) as [E|_]; [lia|].
      rewrite (to_size_t_small (buf + aligned)) by lia. reflexivity.
    + intros others Hheld. cbn [calls]. rewrite Hlist in Hheld.
      rewrite <- (map_map buffer_of call_free).
      apply held_pointers_after_frees.
      rewrite Hheld. cbn [map app cascading_allocator.nodes].
      change (buffer_of head') with (buffer_of head).
      apply Permutation_middle.
Qed.

End cascade_of_heap_arenas.

(** The cascade of three arenas of the specification's scenario, which
    holds the three buffers it has taken: the two nodes of the tail are
    erased and their buffers freed, the head is left alone at the start
    of its arena, and its buffer is all that the program holds. *)
Lemma cascading_deallocateAll_collapses_to_the_head_witness :
  exists ca' w',
    cascading_allocator.deallocateAll scenario.three_nodes scenario.three_buffers
    = Some (ca', w')
    /\ length (cascading_allocator.nodes ca') = 1%nat
    /\ cascading_allocator.nodes ca' = [scenario.node_at 196608 196632]
    /\ calls w' = [call_free 131072; call_free 65536] ++ calls scenario.three_buffers
    /\ held_pointers (calls scenario.three_buffers) = [196608; 131072; 65536]
    /\ held_pointers (calls w') ≡ₚ [196608].
Proof.
  destruct (proj2 (cascading_deallocateAll_collapses_to_the_head
                     scenario.three_nodes scenario.three_buffers
                     ltac:(lia) ltac:(lia) ltac:(lia) ltac:(apply Z.leb_le; reflexivity)
                     ltac:(repeat constructor))
              (scenario.node_at 196608 197536)
              [scenario.node_at 131072 132000; scenario.node_at 65536 66464] eq_refl)
    as (ca' & w' & Hrun & Hlength & Hnodes & _ & _ & _ & Hcalls & Hheld).
  exists ca', w'.
  split; [exact Hrun|]. split; [exact Hlength|]. split; [exact Hnodes|].
  split; [exact Hcalls|]. split; [reflexivity|].
  specialize (Hheld []). rewrite Hnodes in Hheld. apply Hheld. reflexivity.
Defined.

(** C8 as stated fails on the cascade on which no allocation has been
    made: it has no node, and [deallocateAll] leaves it so. *)
Lemma cascading_deallocateAll_keeps_an_empty_list_empty :
  cascading_allocator.construct scenario.exhausted = Some (scenario.no_nodes, scenario.exhausted)
  /\ cascading_allocator.deallocateAll scenario.no_nodes scenario.exhausted
     = Some (scenario.no_nodes, scenario.exhausted)
  /\ length (cascading_allocator.nodes scenario.no_nodes) = 0%nat.
Proof. repeat split. Qed.

(** * The concurrent linear arena, one call at a time *)

Section concurrent_arena.
Context {_Alignment : Z} {P : Type} `{!BufferProvider P}.
Implicit Types (ca : concurrent_linear_allocator.t _Alignment P) (b : block) (w : world).

(** The exchange that follows a [load] with no other thread in between
    finds the value it expects. *)
Lemma compare_exchange_strong_after_load ca desired :
  concurrent_linear_allocator.compare_exchange_strong ca
    (concurrent_linear_allocator.load ca) desired
  = (true, concurrent_linear_allocator.load ca,
     concurrent_linear_allocator.Concurrent (concurrent_linear_allocator.provider ca) desired).
Proof.
  unfold concurrent_linear_allocator.compare_exchange_strong, concurrent_linear_allocator.load.
  rewrite Z.eqb_refl. reflexivity.
Qed.

(** An [allocate] that runs alone leaves its loop in the first round: it
    returns the null block when the space is short, and otherwise the
    block at the cursor it has read, having moved the cursor to the end of
    that block by the exchange. *)
Lemma concurrent_allocate_publishes_the_block ca n w :
  concurrent_linear_allocator.allocate ca n w
  = if concurrent_linear_allocator.hasEnoughSpace ca (concurrent_linear_allocator.p_ ca)
         (concurrent_linear_allocator.align _Alignment n)
    then Some (Block (concurrent_linear_allocator.p_ ca)
                 (concurrent_linear_allocator.align _Alignment n),
               concurrent_linear_allocator.Concurrent (concurrent_linear_allocator.provider ca)
                 (to_size_t (concurrent_linear_allocator.p_ ca
                             + concurrent_linear_allocator.align _Alignment n)), w)
    else Some (nullblock, ca, w).
Proof.
  unfold concurrent_linear_allocator.allocate, concurrent_linear_allocator.rounds.
  cbn [concurrent_linear_allocator.allocate_loop].
  rewrite compare_exchange_strong_after_load. unfold concurrent_linear_allocator.load.
  destruct (concurrent_linear_allocator.hasEnoughSpace ca _ _); reflexivity.
Qed.

(** A [deallocate] that runs alone rewinds the cursor to the base of the
    block when the end of the block, by its recorded size, is the cursor,
    and does nothing otherwise. *)
Lemma concurrent_deallocate_rewinds ca b w :
  concurrent_linear_allocator.deallocate ca b w
  = if concurrent_linear_allocator.isLastAllocatedBlock b (concurrent_linear_allocator.p_ ca)
    then Some (concurrent_linear_allocator.Concurrent
                 (concurrent_linear_allocator.provider ca) (ptr b), w)
    else Some (ca, w).
Proof.
  unfold concurrent_linear_allocator.deallocate, concurrent_linear_allocator.rounds.
  cbn [concurrent_linear_allocator.deallocate_loop].
  rewrite compare_exchange_strong_after_load. unfold concurrent_linear_allocator.load.
  destruct (concurrent_linear_allocator.isLastAllocatedBlock b _); reflexivity.
Qed.

(** A [reallocate] of the last block that runs alone moves the cursor to
    the new end of the block and answers [true]; the block keeps the size
    it had. *)
Lemma concurrent_reallocate_in_place_keeps_the_recorded_size ca b newSize w :
  fast_path_applies _Alignment b newSize = false ->
  concurrent_linear_allocator.isLastAllocatedBlock b (concurrent_linear_allocator.p_ ca) = true ->
  (to_size_t (ptr b + concurrent_linear_allocator.align _Alignment newSize)
   <=? concurrent_linear_allocator.end_ ca) = true ->
  concurrent_linear_allocator.reallocate ca b newSize w
  = Some (true, b,
          concurrent_linear_allocator.Concurrent (concurrent_linear_allocator.provider ca)
            (to_size_t (ptr b + concurrent_linear_allocator.align _Alignment newSize)), w).
Proof.
  intros Hslow Hlast Hfits. unfold concurrent_linear_allocator.reallocate.
  rewrite bind_handle_common_reallocation_cases_declines by exact Hslow.
  cbv beta iota. unfold concurrent_linear_allocator.rounds.
  cbn [concurrent_linear_allocator.reallocate_loop].
  unfold concurrent_linear_allocator.load. rewrite Hlast, Hfits.
  change (concurrent_linear_allocator.p_ ca) with (concurrent_linear_allocator.load ca) at 1.
  rewrite compare_exchange_strong_after_load. reflexivity.
Qed.

End concurrent_arena.

(** C9 (the code departs from it).  Five calls on one concurrent arena,
    each run to its end before the next: a block of 16 bytes is
    allocated and shrunk in place to 8 bytes, keeping the size 16 on
    record; the 8 bytes given up are allocated again; the first block is
    deallocated and passes for the last one, by its recorded size, so that
    the cursor goes back to its base; the next allocation of 16 bytes
    covers the live block of 8 bytes. *)
Theorem concurrent_arena_hands_out_overlapping_blocks :
  concurrent_linear_allocator.allocate (scenario.concurrent_arena 4096) 16 scenario.exhausted
  = Some (Block 4096 16, scenario.concurrent_arena 4112, scenario.exhausted)
  /\ concurrent_linear_allocator.reallocate (scenario.concurrent_arena 4112) (Block 4096 16) 8
       scenario.exhausted
     = Some (true, Block 4096 16, scenario.concurrent_arena 4104, scenario.exhausted)
  /\ concurrent_linear_allocator.allocate (scenario.concurrent_arena 4104) 8 scenario.exhausted
     = Some (Block 4104 8, scenario.concurrent_arena 4112, scenario.exhausted)
  /\ concurrent_linear_allocator.deallocate (scenario.concurrent_arena 4112) (Block 4096 16)
       scenario.exhausted
     = Some (scenario.concurrent_arena 4096, scenario.exhausted)
  /\ concurrent_linear_allocator.allocate (scenario.concurrent_arena 4096) 16 scenario.exhausted
     = Some (Block 4096 16, scenario.concurrent_arena 4112, scenario.exhausted)
  /\ blocks_overlap (Block 4104 8) (Block 4096 16).
Proof.
  split; [rewrite concurrent_allocate_publishes_the_block; reflexivity|].
  split; [rewrite concurrent_reallocate_in_place_keeps_the_recorded_size; reflexivity|].
  split; [rewrite concurrent_allocate_publishes_the_block; reflexivity|].
  split; [rewrite concurrent_deallocate_rewinds; reflexivity|].
  split; [rewrite concurrent_allocate_publishes_the_block; reflexivity|].
  unfold blocks_overlap. simpl. lia.
Qed.

(** * Further laws of the helpers *)

(** ** Rounding to the alignment *)


(** [round_to_alignment], when nothing wraps, answers the least multiple
    of the alignment that is not below the size; a size it has rounded
    stays as it is. *)
Theorem round_to_alignment_is_the_least_aligned_size (n al : Z) :
  0 < al -> 0 <= n -> n + al <= 2 ^ 64 ->
  is_aligned (round_to_alignment n al) al = true
  /\ n <= round_to_alignment n al
  /\ (forall m, n <= m -> m mod al = 0 -> round_to_alignment n al <= m)
  /\ round_to_alignment (round_to_alignment n al) al = round_to_alignment n al.
Proof.
  intros Hal Hn Hfit.
  destruct (round_to_alignment_spec n al Hal Hn Hfit) as [Hround Hmod].
  split; [unfold is_aligned; now apply Z.eqb_eq|].
  split; [lia|]. split.
  - intros m Hm Hdiv. now apply round_to_alignment_least.
  - apply round_to_alignment_aligned; [lia|exact Hmod].
Qed.

Lemma round_to_alignment_is_the_least_aligned_size_witness :
  is_aligned (round_to_alignment 13 8) 8 = true
  /\ 13 <= round_to_alignment 13 8
  /\ (forall m, 13 <= m -> m mod 8 = 0 -> round_to_alignment 13 8 <= m)
  /\ round_to_alignment (round_to_alignment 13 8) 8 = round_to_alignment 13 8.
Proof.
  apply (round_to_alignment_is_the_least_aligned_size 13 8); lia.
Defined.

(** ** Bit helpers on every word *)

Lemma last_bit_set_rec_log2 (fuel : nat) (v : Z) :
  (fuel <= 64)%nat -> 0 < v < 2 ^ Z.of_nat fuel ->
  last_bit_set_rec fuel v = Z.log2 v + 1.
Proof.
  revert v. induction fuel as [|fuel IH]; intros v Hfuel Hv.
  - change (2 ^ Z.of_nat 0) with 1 in Hv. lia.
  - cbn [last_bit_set_rec]. destruct (Z.eqb_spec v 0) as [E|_]; [lia|].
    assert (Hlog : Z.log2 v < Z.of_nat (S fuel)) by (apply Z.log2_lt_pow2; lia).
    pose proof (Z.log2_nonneg v) as Hnonneg.
    destruct (Z.eq_dec v 1) as [->|Hone].
    + change (Z.shiftr 1 1) with 0. rewrite last_bit_set_rec_zero. reflexivity.
    + assert (Hhalf : 0 < Z.shiftr v 1 < 2 ^ Z.of_nat fuel).
      { rewrite Z.shiftr_div_pow2 by lia. change (2 ^ 1) with 2.
        rewrite Nat2Z.inj_succ, Z.pow_succ_r in Hv by lia.
        split; [apply Z.div_str_pos; lia|apply Z.div_lt_upper_bound; lia]. }
      rewrite IH by (lia || exact Hhalf).
      rewrite Z.log2_shiftr by lia.
      assert (1 <= Z.log2 v) by (apply Z.log2_le_pow2; [lia|change (2 ^ 1) with 2; lia]).
      rewrite Z.max_r by lia. rewrite to_size_t_small by lia. lia.
Qed.

Lemma last_bit_set_log2 (v : Z) : 0 < v < 2 ^ 64 -> last_bit_set v = Z.log2 v.
Proof.
  intros Hv. unfold last_bit_set, details.last_bit_set.
  destruct (Z.eqb_spec v 0) as [E|_]; [lia|].
  rewrite (last_bit_set_rec_log2 64 v) by (lia || exact Hv).
  pose proof (Z.log2_nonneg v). assert (Z.log2 v < 64) by (apply Z.log2_lt_pow2; lia).
  replace (Z.log2 v + 1 - 1) with (Z.log2 v) by lia. apply to_size_t_small. lia.
Qed.

Lemma is_pow2_inv (v : Z) :
  0 <= v < 2 ^ 64 -> is_pow2 v = true -> exists j, 0 <= j < 64 /\ v = 2 ^ j.
Proof.
  intros Hv H. unfold is_pow2 in H. apply andb_prop in H as [Hpos Hland].
  apply Z.ltb_lt in Hpos. apply Z.eqb_eq in Hland.
  rewrite to_size_t_small in Hland by lia.
  exists (Z.log2 v).
  pose proof (Z.log2_nonneg v) as Hnonneg.
  assert (Hlt : Z.log2 v < 64) by (apply Z.log2_lt_pow2; lia).
  split; [lia|].
  destruct (Z.log2_spec v Hpos) as [Hlow Hhigh].
  destruct (Z.eq_dec v (2 ^ Z.log2 v)) as [E|Hne]; [exact E|exfalso].
  assert (Hbit : Z.testbit (Z.land v (v - 1)) (Z.log2 v) = true).
  { assert (Hsame : Z.log2 (v - 1) = Z.log2 v) by (apply Z.log2_unique; lia).
    rewrite Z.land_spec, Z.bit_log2 by lia. rewrite <- Hsame. apply Z.bit_log2. lia. }
  rewrite Hland, Z.bits_0 in Hbit. discriminate.
Qed.

Lemma next_pow2_log2_up (v : Z) : 0 < v <= 2 ^ 63 -> next_pow2 v = 2 ^ Z.log2_up v.
Proof.
  intros Hv. unfold next_pow2. destruct (is_pow2 v) eqn:Hpow.
  - apply is_pow2_inv in Hpow as (j & Hj & ->); [|lia].
    rewrite Z.log2_up_pow2 by lia. reflexivity.
  - rewrite last_bit_set_log2 by lia.
    pose proof (Z.log2_nonneg v) as Hnonneg.
    destruct (Z.log2_spec v ltac:(lia)) as [Hlow Hhigh].
    assert (Hne : v <> 2 ^ Z.log2 v).
    { intros Heq. assert (Z.log2 v < 64) by (apply Z.log2_lt_pow2; lia).
      rewrite Heq, is_pow2_pow2 in Hpow by lia. discriminate. }
    assert (Hlt : Z.log2 v < 63).
    { apply Z.log2_lt_pow2; [lia|].
      destruct (Z.eq_dec v (2 ^ 63)) as [Htop|]; [|lia].
      rewrite Htop, (is_pow2_pow2 63) in Hpow by lia. discriminate. }
    rewrite (to_size_t_small (Z.log2 v + 1)) by lia.
    rewrite Z.shiftl_1_l.
    rewrite to_size_t_small by (split; [apply Z.pow_nonneg; lia|apply Z.pow_lt_mono_r; lia]).
    f_equal. symmetry. apply Z.log2_up_unique; [lia|].
    replace (Z.pred (Z.log2 v + 1)) with (Z.log2 v) by lia.
    replace (Z.log2 v + 1) with (Z.succ (Z.log2 v)) by lia. lia.
Qed.

(** [last_bit_set] answers the index of the highest bit that is set: the
    word lies between the power of two of that index and the next one. *)
Theorem last_bit_set_is_the_index_of_the_highest_bit (v : Z) :
  0 < v < 2 ^ 64 ->
  0 <= last_bit_set v < 64
  /\ 2 ^ last_bit_set v <= v < 2 ^ (last_bit_set v + 1).
Proof.
  intros Hv. rewrite last_bit_set_log2 by exact Hv.
  split.
  - split; [apply Z.log2_nonneg|apply Z.log2_lt_pow2; lia].
  - replace (Z.log2 v + 1) with (Z.succ (Z.log2 v)) by lia. apply Z.log2_spec. lia.
Qed.

Lemma last_bit_set_is_the_index_of_the_highest_bit_witness :
  0 <= last_bit_set 100 < 64
  /\ 2 ^ last_bit_set 100 <= 100 < 2 ^ (last_bit_set 100 + 1).
Proof.
  apply (last_bit_set_is_the_index_of_the_highest_bit 100). lia.
Defined.

(** [is_pow2] holds of the powers of two and of no other word; zero is
    none. *)
Theorem is_pow2_iff_power_of_two (v : Z) :
  0 <= v < 2 ^ 64 ->
  is_pow2 v = true <-> exists j, 0 <= j < 64 /\ v = 2 ^ j.
Proof.
  intros Hv. split.
  - now apply is_pow2_inv.
  - intros (j & Hj & ->). now apply is_pow2_pow2.
Qed.

Lemma is_pow2_iff_power_of_two_witness :
  is_pow2 96 = true <-> exists j, 0 <= j < 64 /\ 96 = 2 ^ j.
Proof.
  apply (is_pow2_iff_power_of_two 96). lia.
Defined.

(** [next_pow2] answers the least power of two that is not below the
    word, for every word up to [2 ^ 63], the last one that has such a
    power in 64 bits. *)
Theorem next_pow2_is_the_least_power_of_two (v : Z) :
  0 < v <= 2 ^ 63 ->
  is_pow2 (next_pow2 v) = true
  /\ v <= next_pow2 v
  /\ (forall j, 0 <= j -> v <= 2 ^ j -> next_pow2 v <= 2 ^ j).
Proof.
  intros Hv. rewrite next_pow2_log2_up by exact Hv.
  assert (Hup : 0 <= Z.log2_up v <= 63).
  { split; [apply Z.log2_up_nonneg|apply Z.log2_up_le_pow2; lia]. }
  split; [apply is_pow2_pow2; lia|]. split.
  - apply Z.log2_log2_up_spec. lia.
  - intros j Hj Hle. apply Z.pow_le_mono_r; [lia|]. apply Z.log2_up_le_pow2; lia.
Qed.

Lemma next_pow2_is_the_least_power_of_two_witness :
  is_pow2 (next_pow2 100) = true
  /\ 100 <= next_pow2 100
  /\ (forall j, 0 <= j -> 100 <= 2 ^ j -> next_pow2 100 <= 2 ^ j).
Proof.
  apply (next_pow2_is_the_least_power_of_two 100). lia.
Defined.

(** ** The range raiders *)

(** The power-of-two raider gives every size above the minimum, up to the
    maximum included, the index of a step: step [i] takes the sizes above
    [min * 2 ^ i] up to [min * 2 ^ (i + 1)]. *)
Theorem pow2_step_index_names_the_step_of_the_size (j k n : Z) :
  0 <= j < k -> k < 64 -> 2 ^ j < n <= 2 ^ k ->
  0 <= step_index (pow2_range_raider.t (2 ^ j) (2 ^ k)) n
    < num_steps (pow2_range_raider.t (2 ^ j) (2 ^ k))
  /\ 2 ^ (j + step_index (pow2_range_raider.t (2 ^ j) (2 ^ k)) n) < n
     <= 2 ^ (j + step_index (pow2_range_raider.t (2 ^ j) (2 ^ k)) n + 1).
Proof.
  intros Hjk Hk Hn.
  assert (Hpowj : 0 < 2 ^ j) by (apply Z.pow_pos_nonneg; lia).
  assert (Hpowk : 2 ^ k <= 2 ^ 63) by (apply Z.pow_le_mono_r; lia).
  pose proof (next_pow2_log2_up n ltac:(lia)) as Enext.
  assert (Hup : j < Z.log2_up n <= k).
  { split.
    - apply Z.nle_gt. intros Hle. apply Z.log2_up_le_pow2 in Hle; lia.
    - apply Z.log2_up_le_pow2; lia. }
  assert (Eidx : step_index (pow2_range_raider.t (2 ^ j) (2 ^ k)) n = Z.log2_up n - j - 1).
  { cbn [step_index pow2_range_raider.raider_of].
    unfold pow2_range_raider.step_index, pow2_range_raider.pow2bit_min_index.
    rewrite Enext, !last_bit_set_pow2 by lia.
    rewrite (to_size_t_small (Z.log2_up n - j)) by lia. apply to_size_t_small. lia. }
  rewrite Eidx.
  cbn [num_steps pow2_range_raider.raider_of].
  unfold pow2_range_raider.num_steps, pow2_range_raider.pow2bit_min_index,
    pow2_range_raider.pow2bit_max_index.
  rewrite !last_bit_set_pow2 by lia. rewrite to_size_t_small by lia.
  split; [lia|].
  replace (j + (Z.log2_up n - j - 1)) with (Z.pred (Z.log2_up n)) by lia.
  replace (Z.pred (Z.log2_up n) + 1) with (Z.log2_up n) by lia.
  apply Z.log2_up_spec. lia.
Qed.

Lemma pow2_step_index_names_the_step_of_the_size_witness :
  0 <= step_index (pow2_range_raider.t (2 ^ 3) (2 ^ 6)) 33
    < num_steps (pow2_range_raider.t (2 ^ 3) (2 ^ 6))
  /\ 2 ^ (3 + step_index (pow2_range_raider.t (2 ^ 3) (2 ^ 6)) 33) < 33
     <= 2 ^ (3 + step_index (pow2_range_raider.t (2 ^ 3) (2 ^ 6)) 33 + 1).
Proof.
  apply (pow2_step_index_names_the_step_of_the_size 3 6 33); lia.
Defined.

(** The linear raider gives a size of its range the number of whole steps
    between the minimum and the size, which names a step for every size
    but the maximum. *)
Theorem linear_step_index_counts_the_whole_steps (_Min _Max _Step n : Z) :
  0 <= _Min -> _Max < 2 ^ 64 -> 0 < _Step -> (_Max - _Min) mod _Step = 0 ->
  _Min <= n <= _Max ->
  _Min + step_index (linear_range_raider.t _Min _Max _Step) n * _Step <= n
    < _Min + (step_index (linear_range_raider.t _Min _Max _Step) n + 1) * _Step
  /\ (step_index (linear_range_raider.t _Min _Max _Step) n
        < num_steps (linear_range_raider.t _Min _Max _Step) <-> n < _Max).
Proof.
  intros Hmin Hmax Hstep Hdiv Hin.
  cbn [step_index num_steps linear_range_raider.raider_of].
  unfold linear_range_raider.step_index, linear_range_raider.num_steps, range_t.is_in_range.
  destruct (Z.leb_spec _Min n); [|lia]. destruct (Z.leb_spec n _Max); [|lia].
  cbn [andb]. rewrite !to_size_t_small by lia.
  pose proof (Z.div_mod (n - _Min) _Step ltac:(lia)) as Hdm.
  pose proof (Z.mod_pos_bound (n - _Min) _Step Hstep) as Hbound.
  split; [lia|].
  pose proof (Z_div_exact_full_2 (_Max - _Min) _Step ltac:(lia) Hdiv) as Hexact.
  split; intros H1.
  - destruct (Z.eq_dec n _Max) as [->|]; lia.
  - apply Z.div_lt_upper_bound; [lia|]. lia.
Qed.

Lemma linear_step_index_counts_the_whole_steps_witness :
  8 + step_index (linear_range_raider.t 8 64 8) 27 * 8 <= 27
    < 8 + (step_index (linear_range_raider.t 8 64 8) 27 + 1) * 8
  /\ (step_index (linear_range_raider.t 8 64 8) 27
        < num_steps (linear_range_raider.t 8 64 8) <-> 27 < 64).
Proof.
  apply (linear_step_index_counts_the_whole_steps 8 64 8 27); [lia|lia|lia|reflexivity|lia].
Defined.

(** * Further laws of the linear arena *)

Section stack_arena_laws.
Context {_BufferSize _Alignment : Z}.
Implicit Types (la : stack_linear_allocator _BufferSize _Alignment) (b : block) (w : world).

(** Deallocating the block that [allocate] has just returned puts the
    arena back as it was: whatever the size asked for, and also when the
    allocation failed and the block is the null block. *)
Theorem linear_deallocate_undoes_the_last_allocate la n w :
  ('(b, la') ← linear_allocator.allocate la n; linear_allocator.deallocate la' b) w
  = Some (la, w).
Proof.
  destruct la as [bp p].
  unfold linear_allocator.allocate, linear_allocator.deallocate,
    linear_allocator.isLastAllocatedBlock.
  destruct (linear_allocator.hasEnoughSpace _ _); cbn;
    unfold stack_buffer_provider.init, mbind, M_bind, mret, M_ret; cbn.
  - rewrite Z.eqb_refl. reflexivity.
  - change (to_size_t (0 + 0)) with 0. destruct (Z.eqb_spec 0 p) as [<-|_]; reflexivity.
Qed.


End stack_arena_laws.

Section stack_arena_reallocate.
Context {_BufferSize _Alignment : Z}.
Implicit Types (la : stack_linear_allocator _BufferSize _Alignment) (b : block) (w : world).

(** [reallocate] shrinks the last block in place by moving the cursor and
    leaves the size the block records as it was.  Once the bytes given up
    have been allocated again, [deallocate] of the shrunk block takes it
    for the last block, by that recorded size, and rewinds the cursor to
    its base: the next allocation lies over a block that is live. *)
Theorem linear_deallocate_after_a_shrink_rewinds_over_a_live_block la b newSize w :
  0 < _Alignment ->
  0 < newSize ->
  newSize + _Alignment <= 2 ^ 64 ->
  block_in_address_space b ->
  ptr b <> 0 ->
  size b mod _Alignment = 0 ->
  round_to_alignment newSize _Alignment < size b ->
  ptr b + size b = linear_allocator.p_ la ->
  linear_allocator.p_ la <= linear_allocator.end_ la ->
  exists la1 la2 la3 c,
    linear_allocator.reallocate la b newSize w = Some (true, b, la1, w)
    /\ linear_allocator.allocate la1 (size b - round_to_alignment newSize _Alignment) w
       = Some (c, la2, w)
    /\ c = Block (ptr b + round_to_alignment newSize _Alignment)
             (size b - round_to_alignment newSize _Alignment)
    /\ linear_allocator.deallocate la2 b w = Some (la3, w)
    /\ linear_allocator.p_ la3 = ptr b
    /\ linear_allocator.allocate la3 (size b) w = Some (Block (ptr b) (size b), la2, w)
    /\ blocks_overlap c (Block (ptr b) (size b)).
Proof.
  intros Hal Hnew Hfit (Hptr & Hsize & Hspace) Hnonnull Hmod Hshrink Hlast Hend.
  destruct (round_to_alignment_spec newSize _Alignment Hal ltac:(lia) Hfit) as [Hround Hrmod].
  set (m := round_to_alignment newSize _Alignment) in *.
  pose proof (to_size_t_range (abb.buffer_ (linear_allocator.provider la)
                               + abb.buffer_size (linear_allocator.provider la))) as Hrange.
  unfold linear_allocator.end_ in Hend.
  assert (Hrest : round_to_alignment (size b - m) _Alignment = size b - m).
  { apply round_to_alignment_aligned; [lia|].
    rewrite Zminus_mod, Hmod, Hrmod. apply Z.mod_0_l. lia. }
  assert (Hwhole : round_to_alignment (size b) _Alignment = size b)
    by (apply round_to_alignment_aligned; [lia|exact Hmod]).
  exists (linear_allocator.Linear (linear_allocator.provider la) (ptr b + m)),
    (linear_allocator.Linear (linear_allocator.provider la) (ptr b + size b)),
    (linear_allocator.Linear (linear_allocator.provider la) (ptr b)),
    (Block (ptr b + m) (size b - m)).
  split; [|split; [|split; [reflexivity|split; [|split; [reflexivity|split]]]]].
  - unfold linear_allocator.reallocate.
    rewrite bind_handle_common_reallocation_cases_declines.
    + cbv beta iota. unfold linear_allocator.isLastAllocatedBlock, linear_allocator.align,
        linear_allocator.alignment, linear_allocator.end_. fold m.
      rewrite (to_size_t_small (ptr b + size b)), (to_size_t_small (ptr b + m)) by lia.
      rewrite Hlast, Z.eqb_refl.
      destruct (Z.leb_spec (ptr b + m)
                  (to_size_t (abb.buffer_ (linear_allocator.provider la)
                              + abb.buffer_size (linear_allocator.provider la)))); [|lia].
      reflexivity.
    + unfold fast_path_applies. cbn [abb.alignment linear_allocator.allocator].
      unfold linear_allocator.alignment. fold m.
      destruct (Z.eqb_spec (size b) m); [lia|]. destruct (Z.eqb_spec newSize 0); [lia|].
      destruct (Z.eqb_spec (ptr b) 0); [contradiction|]. reflexivity.
  - unfold linear_allocator.allocate, linear_allocator.hasEnoughSpace, linear_allocator.align,
      linear_allocator.alignment, linear_allocator.end_. rewrite Hrest.
    cbn [linear_allocator.p_ linear_allocator.provider].
    replace (ptr b + m + (size b - m)) with (ptr b + size b) by lia.
    rewrite (to_size_t_small (ptr b + size b)) by lia.
    destruct (Z.leb_spec (ptr b + size b)
                (to_size_t (abb.buffer_ (linear_allocator.provider la)
                            + abb.buffer_size (linear_allocator.provider la)))); [|lia].
    cbn. unfold stack_buffer_provider.init, mbind, M_bind, mret, M_ret. cbn.
    replace (ptr b + m + (size b - m)) with (ptr b + size b) by lia.
    rewrite (to_size_t_small (ptr b + size b)) by lia. reflexivity.
  - unfold linear_allocator.deallocate, linear_allocator.isLastAllocatedBlock.
    cbn [linear_allocator.p_ linear_allocator.provider].
    rewrite (to_size_t_small (ptr b + size b)), Z.eqb_refl by lia. reflexivity.
  - unfold linear_allocator.allocate, linear_allocator.hasEnoughSpace, linear_allocator.align,
      linear_allocator.alignment, linear_allocator.end_. rewrite Hwhole.
    cbn [linear_allocator.p_ linear_allocator.provider].
    rewrite (to_size_t_small (ptr b + size b)) by lia.
    destruct (Z.leb_spec (ptr b + size b)
                (to_size_t (abb.buffer_ (linear_allocator.provider la)
                            + abb.buffer_size (linear_allocator.provider la)))); [|lia].
    cbn. unfold stack_buffer_provider.init, mbind, M_bind, mret, M_ret. cbn.
    rewrite (to_size_t_small (ptr b + size b)) by lia. reflexivity.
  - unfold blocks_overlap. cbn [ptr size]. lia.
Qed.

(** A block that is not the last one cannot grow in place: [reallocate]
    cuts a new block at the cursor, copies the bytes of the old block
    there and leaves the old bytes where they are; when the space left is
    too short it answers [false] and changes nothing. *)
Theorem linear_reallocate_moves_a_block_that_is_not_the_last la b newSize w :
  0 < _Alignment ->
  0 < newSize ->
  block_in_address_space b ->
  ptr b <> 0 ->
  ptr b + size b < linear_allocator.p_ la ->
  size b < round_to_alignment newSize _Alignment ->
  linear_allocator.p_ la + newSize + _Alignment <= 2 ^ 64 ->
  linear_allocator.reallocate la b newSize w
  = if linear_allocator.p_ la + round_to_alignment newSize _Alignment
       <=? linear_allocator.end_ la
    then Some (true,
               Block (linear_allocator.p_ la) (round_to_alignment newSize _Alignment),
               linear_allocator.Linear (linear_allocator.provider la)
                 (linear_allocator.p_ la + round_to_alignment newSize _Alignment),
               World (answers w)
                 (call_memcpy (linear_allocator.p_ la) (ptr b) (size b) :: calls w)
                 (memory w))
    else Some (false, b, la, w).
Proof.
  intros Hal Hnew (Hptr & Hsize & Hspace) Hnonnull Hburied Hgrow Hfit.
  destruct (round_to_alignment_spec newSize _Alignment Hal ltac:(lia) ltac:(lia))
    as [Hround Hrmod].
  unfold linear_allocator.reallocate.
  rewrite bind_handle_common_reallocation_cases_declines.
  - cbv beta iota. unfold linear_allocator.isLastAllocatedBlock, linear_allocator.align,
      linear_allocator.alignment.
    set (m := round_to_alignment newSize _Alignment) in *.
    rewrite (to_size_t_small (ptr b + size b)) by lia.
    destruct (Z.eqb_spec (ptr b + size b) (linear_allocator.p_ la)); [lia|].
    destruct (Z.geb_spec (size b) m); [lia|].
    unfold reallocate_and_copy, linear_allocator.allocate, linear_allocator.hasEnoughSpace,
      linear_allocator.align, linear_allocator.alignment. fold m.
    rewrite (to_size_t_small (linear_allocator.p_ la + m)) by lia.
    destruct (Z.leb_spec (linear_allocator.p_ la + m) (linear_allocator.end_ la));
      cbn [negb]; [|reflexivity].
    cbn. unfold stack_buffer_provider.init, mbind, M_bind, mret, M_ret. cbn.
    destruct (Z.eqb_spec (linear_allocator.p_ la) 0); [lia|].
    unfold copy_block, memcpy, record_call, linear_allocator.deallocate,
      linear_allocator.isLastAllocatedBlock. cbn.
    rewrite Z.min_r by lia.
    rewrite (to_size_t_small (ptr b + size b)) by lia.
    rewrite (to_size_t_small (linear_allocator.p_ la + m)) by lia.
    destruct (Z.eqb_spec (ptr b + size b) (linear_allocator.p_ la + m)); [lia|].
    reflexivity.
  - unfold fast_path_applies. cbn [abb.alignment linear_allocator.allocator].
    unfold linear_allocator.alignment.
    destruct (Z.eqb_spec (size b) (round_to_alignment newSize _Alignment)); [lia|].
    destruct (Z.eqb_spec newSize 0); [lia|].
    destruct (Z.eqb_spec (ptr b) 0); [contradiction|]. reflexivity.
Qed.

(** After [deallocateAll] the whole buffer is there to allocate again,
    wherever the cursor stood: the next block starts at the buffer, and
    the request fails only if it is larger than the buffer. *)
Theorem linear_allocate_after_deallocateAll_starts_at_the_buffer la n w :
  0 < _Alignment ->
  0 <= n ->
  0 <= _BufferSize ->
  0 <= linear_allocator.begin la ->
  linear_allocator.begin la + _BufferSize + n + _Alignment <= 2 ^ 64 ->
  (la' ← linear_allocator.deallocateAll la; linear_allocator.allocate la' n) w
  = if round_to_alignment n _Alignment <=? _BufferSize
    then Some (Block (linear_allocator.begin la) (round_to_alignment n _Alignment),
               linear_allocator.Linear (linear_allocator.provider la)
                 (linear_allocator.begin la + round_to_alignment n _Alignment), w)
    else Some (nullblock,
               linear_allocator.Linear (linear_allocator.provider la)
                 (linear_allocator.begin la), w).
Proof.
  intros Hal Hn Hsize Hbegin Hfit.
  destruct (round_to_alignment_spec n _Alignment Hal Hn ltac:(lia)) as [Hround _].
  unfold linear_allocator.deallocateAll, linear_allocator.begin in *.
  unfold mbind, M_bind, mret at 1, M_ret at 1.
  unfold linear_allocator.allocate, linear_allocator.hasEnoughSpace, linear_allocator.end_,
    linear_allocator.align, linear_allocator.alignment.
  cbn [linear_allocator.p_ linear_allocator.provider].
  set (m := round_to_alignment n _Alignment) in *.
  destruct la as [[buffer] cursor]. cbn in *.
  unfold stack_buffer_provider.size, stack_buffer_provider.init, mbind, M_bind, mret, M_ret.
  rewrite !to_size_t_small by lia.
  destruct (Z.leb_spec (buffer + m) (buffer + _BufferSize));
    destruct (Z.leb_spec m _BufferSize); try lia; reflexivity.
Qed.

End stack_arena_reallocate.


(** The block of 16 bytes at the start of the arena is the last one; it is
    shrunk to 8 bytes, the 8 bytes after it are allocated, and its
    deallocation brings the cursor back to 4096. *)
Lemma linear_deallocate_after_a_shrink_rewinds_over_a_live_block_witness :
  exists la1 la2 la3 c,
    linear_allocator.reallocate (scenario.stack_arena 128 4096 4112) (Block 4096 16) 8
      scenario.exhausted
    = Some (true, Block 4096 16, la1, scenario.exhausted)
    /\ linear_allocator.allocate la1 (size (Block 4096 16) - round_to_alignment 8 8)
         scenario.exhausted
       = Some (c, la2, scenario.exhausted)
    /\ c = Block (ptr (Block 4096 16) + round_to_alignment 8 8)
             (size (Block 4096 16) - round_to_alignment 8 8)
    /\ linear_allocator.deallocate la2 (Block 4096 16) scenario.exhausted
       = Some (la3, scenario.exhausted)
    /\ linear_allocator.p_ la3 = ptr (Block 4096 16)
    /\ linear_allocator.allocate la3 (size (Block 4096 16)) scenario.exhausted
       = Some (Block (ptr (Block 4096 16)) (size (Block 4096 16)), la2, scenario.exhausted)
    /\ blocks_overlap c (Block (ptr (Block 4096 16)) (size (Block 4096 16))).
Proof.
  apply (linear_deallocate_after_a_shrink_rewinds_over_a_live_block
           (scenario.stack_arena 128 4096 4112) (Block 4096 16) 8 scenario.exhausted);
    evaluate.
Defined.

(** The block of 16 bytes at the start of the arena lies under a second
    block; grown to 24 bytes it moves to the cursor at 4128. *)
Lemma linear_reallocate_moves_a_block_that_is_not_the_last_witness :
  linear_allocator.reallocate (scenario.stack_arena 128 4096 4128) (Block 4096 16) 24
    scenario.exhausted
  = if linear_allocator.p_ (scenario.stack_arena 128 4096 4128) + round_to_alignment 24 8
       <=? linear_allocator.end_ (scenario.stack_arena 128 4096 4128)
    then Some (true,
               Block (linear_allocator.p_ (scenario.stack_arena 128 4096 4128))
                 (round_to_alignment 24 8),
               linear_allocator.Linear
                 (linear_allocator.provider (scenario.stack_arena 128 4096 4128))
                 (linear_allocator.p_ (scenario.stack_arena 128 4096 4128)
                  + round_to_alignment 24 8),
               World (answers scenario.exhausted)
                 (call_memcpy (linear_allocator.p_ (scenario.stack_arena 128 4096 4128))
                    (ptr (Block 4096 16)) (size (Block 4096 16)) :: calls scenario.exhausted)
                 (memory scenario.exhausted))
    else Some (false, Block 4096 16, scenario.stack_arena 128 4096 4128, scenario.exhausted).
Proof.
  apply (linear_reallocate_moves_a_block_that_is_not_the_last
           (scenario.stack_arena 128 4096 4128) (Block 4096 16) 24 scenario.exhausted);
    evaluate.
Defined.

Lemma linear_allocate_after_deallocateAll_starts_at_the_buffer_witness :
  (la' ← linear_allocator.deallocateAll (scenario.stack_arena 128 4096 4200);
   linear_allocator.allocate la' 100) scenario.exhausted
  = if round_to_alignment 100 8 <=? 128
    then Some (Block (linear_allocator.begin (scenario.stack_arena 128 4096 4200))
                 (round_to_alignment 100 8),
               linear_allocator.Linear
                 (linear_allocator.provider (scenario.stack_arena 128 4096 4200))
                 (linear_allocator.begin (scenario.stack_arena 128 4096 4200)
                  + round_to_alignment 100 8), scenario.exhausted)
    else Some (nullblock,
               linear_allocator.Linear
                 (linear_allocator.provider (scenario.stack_arena 128 4096 4200))
                 (linear_allocator.begin (scenario.stack_arena 128 4096 4200)),
               scenario.exhausted).
Proof.
  apply (linear_allocate_after_deallocateAll_starts_at_the_buffer
           (scenario.stack_arena 128 4096 4200) 100 scenario.exhausted); evaluate.
Defined.


(** * The linear arena over a buffer of the heap *)

Section heap_arena_laws.
Context {_BufferSize _Alignment : Z}.

(** In either init mode the first allocation of a fresh arena is cut at
    the start of the buffer that one [malloc] of [_BufferSize] bytes has
    answered.  The answer is not tested: when [malloc] fails, the block
    has the null base and the size asked for, and the cursor has moved
    all the same. *)
Theorem heap_arena_cuts_its_first_block_at_the_answer_of_malloc
    (_InitMode : BufferInitMode) (n p : Z) (rest : list Z) (cs : list libc_call)
    (mem : gmap Z Z) :
  0 < _Alignment ->
  0 <= n ->
  n + _Alignment <= 2 ^ 64 ->
  round_to_alignment n _Alignment <= _BufferSize ->
  _BufferSize < 2 ^ 64 - 1 ->
  0 <= p ->
  p + _BufferSize < 2 ^ 64 ->
  (la ← (linear_allocator.construct
           : M (heap_linear_allocator _BufferSize _Alignment _InitMode mallocator.t));
   linear_allocator.allocate la n) (World (p :: rest) cs mem)
  = Some (Block p (round_to_alignment n _Alignment),
          linear_allocator.Linear (heap_buffer_provider.Provider mallocator.mallocator p)
            (p + round_to_alignment n _Alignment),
          World rest (call_malloc _BufferSize p :: cs) mem).
Proof.
  intros Hal Hn Hfit Hroom Hsize Hp Hspace.
  destruct (round_to_alignment_spec n _Alignment Hal Hn Hfit) as [Hround _].
  assert (Hdyn : is_dynamic_value _BufferSize = false).
  { unfold is_dynamic_value, dynamic_value, size_t_max.
    destruct (Z.eqb_spec _BufferSize (2 ^ 64 - 1)); [lia|reflexivity]. }
  unfold linear_allocator.construct, linear_allocator.allocate, linear_allocator.hasEnoughSpace,
    linear_allocator.end_, linear_allocator.align, linear_allocator.alignment.
  set (m := round_to_alignment n _Alignment) in *.
  destruct _InitMode;
    cbv [mbind M_bind mret M_ret abb.construct heap_buffer_provider.constructible
         heap_buffer_provider.construct mallocator.constructible is_lazy_init orb andb
         abb.allocate mallocator.allocator mallocator.allocate malloc next_answer record_call
         answers calls memory abb.buffer_ abb.buffer_size abb.init
         heap_buffer_provider.provider heap_buffer_provider.buffer_ heap_buffer_provider.size
         heap_buffer_provider.init heap_buffer_provider.base
         linear_allocator.provider linear_allocator.p_ ptr assert];
    rewrite Hdyn; cbv beta iota.
  - rewrite (to_size_t_small (0 + m)), (to_size_t_small (0 + _BufferSize)) by lia.
    destruct (Z.leb_spec (0 + m) (0 + _BufferSize)); [|lia].
    cbn. rewrite to_size_t_small by lia. reflexivity.
  - rewrite (to_size_t_small (p + m)), (to_size_t_small (p + _BufferSize)) by lia.
    destruct (Z.leb_spec (p + m) (p + _BufferSize)); [|lia].
    cbn. reflexivity.
Qed.

(** A lazily initialised arena tests the space before it takes its
    buffer: a request larger than the buffer fails without a call to
    [malloc]. *)
Theorem lazy_heap_arena_refuses_a_large_request_without_a_buffer (n : Z) (w : world) :
  0 < _Alignment ->
  0 <= n ->
  n + _Alignment <= 2 ^ 64 ->
  0 <= _BufferSize < round_to_alignment n _Alignment ->
  (la ← (linear_allocator.construct
           : M (heap_linear_allocator _BufferSize _Alignment InitOnFirstAllocation
                  mallocator.t));
   linear_allocator.allocate la n) w
  = Some (nullblock,
          linear_allocator.Linear (heap_buffer_provider.Provider mallocator.mallocator 0) 0, w).
Proof.
  intros Hal Hn Hfit Hlarge.
  destruct (round_to_alignment_spec n _Alignment Hal Hn Hfit) as [Hround _].
  unfold linear_allocator.construct, linear_allocator.allocate, linear_allocator.hasEnoughSpace,
    linear_allocator.end_, linear_allocator.align, linear_allocator.alignment.
  set (m := round_to_alignment n _Alignment) in *.
  cbv [mbind M_bind mret M_ret abb.construct heap_buffer_provider.constructible
       heap_buffer_provider.construct mallocator.constructible is_lazy_init orb
       abb.buffer_ abb.buffer_size heap_buffer_provider.provider heap_buffer_provider.buffer_
       heap_buffer_provider.size linear_allocator.provider linear_allocator.p_].
  rewrite (to_size_t_small (0 + m)), (to_size_t_small (0 + _BufferSize)) by lia.
  destruct (Z.leb_spec (0 + m) (0 + _BufferSize)); [lia|]. reflexivity.
Qed.

(** Construction followed by destruction gives the heap back what it
    took: with the buffer taken at construction, one [free] of the pointer
    that [malloc] answered, and none if that pointer was null; with lazy
    initialisation, no call at all. *)
Theorem heap_arena_frees_the_buffer_it_took
    (_InitMode : BufferInitMode) (p : Z) (rest : list Z) (cs : list libc_call)
    (mem : gmap Z Z) :
  _BufferSize <> dynamic_value ->
  (la ← (linear_allocator.construct
           : M (heap_linear_allocator _BufferSize _Alignment _InitMode mallocator.t));
   destroy la) (World (p :: rest) cs mem)
  = Some (tt,
          match _InitMode with
          | InitOnFirstAllocation => World (p :: rest) cs mem
          | InitOnConstruct =>
              World rest
                ((if p =? 0 then [] else [call_free p]) ++ call_malloc _BufferSize p :: cs) mem
          end).
Proof.
  intros Hsize.
  assert (Hdyn : is_dynamic_value _BufferSize = false).
  { unfold is_dynamic_value. destruct (Z.eqb_spec _BufferSize dynamic_value);
      [contradiction|reflexivity]. }
  unfold linear_allocator.construct.
  destruct _InitMode;
    cbv [mbind M_bind mret M_ret abb.construct heap_buffer_provider.constructible
         heap_buffer_provider.construct mallocator.constructible is_lazy_init orb andb
         abb.allocate mallocator.allocator mallocator.allocate malloc next_answer record_call
         answers calls memory destroy linear_allocator.destructible
         heap_buffer_provider.destructible heap_buffer_provider.destroy
         mallocator.destructible heap_buffer_provider.buffer_ heap_buffer_provider.size
         heap_buffer_provider.base linear_allocator.provider ptr
         abb.deallocate mallocator.deallocate free];
    rewrite ?Hdyn; cbv beta iota.
  - reflexivity.
  - destruct (p =? 0); reflexivity.
Qed.

End heap_arena_laws.

Lemma heap_arena_cuts_its_first_block_at_the_answer_of_malloc_witness :
  (la ← (linear_allocator.construct
           : M (heap_linear_allocator 1024 8 InitOnFirstAllocation mallocator.t));
   linear_allocator.allocate la 900) (World [0] [] ∅)
  = Some (Block 0 (round_to_alignment 900 8),
          linear_allocator.Linear (heap_buffer_provider.Provider mallocator.mallocator 0)
            (0 + round_to_alignment 900 8),
          World [] [call_malloc 1024 0] ∅).
Proof.
  apply (heap_arena_cuts_its_first_block_at_the_answer_of_malloc
           InitOnFirstAllocation 900 0 [] [] ∅); evaluate.
Defined.

Lemma lazy_heap_arena_refuses_a_large_request_without_a_buffer_witness :
  (la ← (linear_allocator.construct
           : M (heap_linear_allocator 1024 8 InitOnFirstAllocation mallocator.t));
   linear_allocator.allocate la 2000) (scenario.heap_answering [65536])
  = Some (nullblock,
          linear_allocator.Linear (heap_buffer_provider.Provider mallocator.mallocator 0) 0,
          scenario.heap_answering [65536]).
Proof.
  apply (lazy_heap_arena_refuses_a_large_request_without_a_buffer 2000
           (scenario.heap_answering [65536])); evaluate.
Defined.

Lemma heap_arena_frees_the_buffer_it_took_witness :
  (la ← (linear_allocator.construct
           : M (heap_linear_allocator 1024 8 InitOnConstruct mallocator.t));
   destroy la) (World [65536] [] ∅)
  = Some (tt,
          World []
            ((if 65536 =? 0 then [] else [call_free 65536]) ++ [call_malloc 1024 65536]) ∅).
Proof.
  apply (heap_arena_frees_the_buffer_it_took InitOnConstruct 65536 [] [] ∅). evaluate.
Defined.

(** * The concurrent arena and the linear arena *)

Section concurrent_and_linear.
Context {_Alignment : Z} {P : Type} `{!BufferProvider P}.
Implicit Types (ca : concurrent_linear_allocator.t _Alignment P) (b : block) (w : world).

Lemma concurrent_of_linear_of ca : concurrent_of (linear_of ca) = ca.
Proof. destruct ca; reflexivity. Qed.

Lemma concurrent_allocate_agrees ca n w :
  buffer_is_ready P ->
  concurrent_linear_allocator.allocate ca n w
  = ('(b, la) ← linear_allocator.allocate (linear_of ca) n; mret (b, concurrent_of la)) w.
Proof.
  intros Hready. rewrite concurrent_allocate_publishes_the_block.
  unfold linear_allocator.allocate, linear_allocator.hasEnoughSpace,
    concurrent_linear_allocator.hasEnoughSpace, linear_allocator.end_,
    concurrent_linear_allocator.end_, linear_allocator.align, concurrent_linear_allocator.align,
    linear_allocator.alignment, concurrent_linear_allocator.alignment.
  cbn [linear_of linear_allocator.p_ linear_allocator.provider].
  destruct (_ <=? _); cbn [negb]; unfold mbind, M_bind, mret, M_ret.
  - rewrite Hready. reflexivity.
  - rewrite concurrent_of_linear_of. reflexivity.
Qed.

Lemma concurrent_deallocate_agrees ca b w :
  concurrent_linear_allocator.deallocate ca b w
  = (la ← linear_allocator.deallocate (linear_of ca) b; mret (concurrent_of la)) w.
Proof.
  rewrite concurrent_deallocate_rewinds.
  unfold linear_allocator.deallocate, linear_allocator.isLastAllocatedBlock,
    concurrent_linear_allocator.isLastAllocatedBlock.
  cbn [linear_of linear_allocator.p_ linear_allocator.provider].
  destruct (_ =? _); unfold mbind, M_bind, mret, M_ret.
  - reflexivity.
  - rewrite concurrent_of_linear_of. reflexivity.
Qed.

Lemma concurrent_fast_paths_agree ca b newSize w :
  buffer_is_ready P ->
  handle_common_reallocation_cases ca b newSize w
  = ('(done, b, la) ← handle_common_reallocation_cases (linear_of ca) b newSize;
     mret (done, b, concurrent_of la)) w.
Proof.
  intros Hready. unfold handle_common_reallocation_cases.
  cbn [abb.alignment abb.allocate abb.deallocate concurrent_linear_allocator.allocator
       linear_allocator.allocator].
  change (concurrent_linear_allocator.alignment _Alignment)
    with (linear_allocator.alignment _Alignment).
  destruct (size b =? _).
  { unfold mbind, M_bind, mret, M_ret. rewrite concurrent_of_linear_of. reflexivity. }
  destruct (newSize =? 0).
  { unfold mbind at 1, M_bind at 1. rewrite concurrent_deallocate_agrees.
    unfold mbind, M_bind, mret, M_ret.
    destruct (linear_allocator.deallocate (linear_of ca) b w) as [[la w']|]; reflexivity. }
  destruct (ptr b =? 0).
  { unfold mbind at 1, M_bind at 1. rewrite concurrent_allocate_agrees by exact Hready.
    unfold mbind, M_bind, mret, M_ret.
    destruct (linear_allocator.allocate (linear_of ca) newSize w) as [[[b' la] w']|];
      reflexivity. }
  unfold mbind, M_bind, mret, M_ret. rewrite concurrent_of_linear_of. reflexivity.
Qed.

Lemma concurrent_reallocate_and_copy_agrees ca b newSize w :
  buffer_is_ready P ->
  reallocate_and_copy concurrent_linear_allocator.deallocate
    concurrent_linear_allocator.allocate ca b newSize w
  = ('(ok, b, la) ← reallocate_and_copy linear_allocator.deallocate linear_allocator.allocate
                      (linear_of ca) b newSize;
     mret (ok, b, concurrent_of la)) w.
Proof.
  intros Hready. unfold reallocate_and_copy.
  unfold mbind at 1, M_bind at 1. rewrite concurrent_allocate_agrees by exact Hready.
  unfold mbind, M_bind, mret, M_ret.
  destruct (linear_allocator.allocate (linear_of ca) newSize w) as [[[newBlock la] w1]|];
    [|reflexivity].
  destruct (ptr newBlock =? 0); [reflexivity|].
  destruct (copy_block newBlock b w1) as [[[] w2]|]; [|reflexivity].
  pose proof (concurrent_deallocate_agrees (concurrent_of la) b w2) as Hd.
  unfold mbind, M_bind, mret, M_ret in Hd. rewrite Hd.
  replace (linear_of (concurrent_of la)) with la by (destruct la; reflexivity).
  destruct (linear_allocator.deallocate la b w2) as [[la' w3]|]; reflexivity.
Qed.

(** A call of the concurrent arena that runs alone does what the same
    call does on the linear arena with the same buffer and cursor: it
    returns the same block and the same answer, and leaves the cursor
    where the linear arena leaves it. *)
Theorem concurrent_call_alone_agrees_with_the_linear_arena ca b n w :
  buffer_is_ready P ->
  concurrent_linear_allocator.allocate ca n w
  = ('(b', la) ← linear_allocator.allocate (linear_of ca) n; mret (b', concurrent_of la)) w
  /\ concurrent_linear_allocator.deallocate ca b w
     = (la ← linear_allocator.deallocate (linear_of ca) b; mret (concurrent_of la)) w
  /\ concurrent_linear_allocator.reallocate ca b n w
     = ('(ok, b', la) ← linear_allocator.reallocate (linear_of ca) b n;
        mret (ok, b', concurrent_of la)) w.
Proof.
  intros Hready.
  split; [now apply concurrent_allocate_agrees|].
  split; [apply concurrent_deallocate_agrees|].
  unfold concurrent_linear_allocator.reallocate, linear_allocator.reallocate.
  unfold mbind at 1, M_bind at 1. rewrite concurrent_fast_paths_agree by exact Hready.
  unfold mbind, M_bind.
  destruct (handle_common_reallocation_cases (linear_of ca) b n w)
    as [[[[done b1] la1] w1]|]; [|reflexivity].
  unfold mret, M_ret. destruct done.
  { reflexivity. }
  unfold concurrent_linear_allocator.rounds.
  cbn [concurrent_linear_allocator.reallocate_loop].
  unfold concurrent_linear_allocator.isLastAllocatedBlock,
    linear_allocator.isLastAllocatedBlock, concurrent_linear_allocator.load,
    concurrent_linear_allocator.align, linear_allocator.align,
    concurrent_linear_allocator.alignment, linear_allocator.alignment,
    concurrent_linear_allocator.end_, linear_allocator.end_.
  cbn [concurrent_of concurrent_linear_allocator.p_ concurrent_linear_allocator.provider].
  destruct (to_size_t (ptr b1 + size b1) =? linear_allocator.p_ la1).
  - destruct (_ <=? _).
    + unfold concurrent_linear_allocator.compare_exchange_strong.
      cbn [concurrent_linear_allocator.p_ concurrent_linear_allocator.provider].
      rewrite Z.eqb_refl. reflexivity.
    + reflexivity.
  - unfold mret, M_ret. destruct (size b1 >=? _).
    + reflexivity.
    + pose proof (concurrent_reallocate_and_copy_agrees (concurrent_of la1) b1 n w1 Hready) as Hr.
      replace (linear_of (concurrent_of la1)) with la1 in Hr by (destruct la1; reflexivity).
      unfold mbind, M_bind, mret, M_ret in Hr. exact Hr.
Qed.

End concurrent_and_linear.

Lemma concurrent_call_alone_agrees_with_the_linear_arena_witness :
  concurrent_linear_allocator.allocate (scenario.concurrent_arena 4112) 24 scenario.exhausted
  = ('(b', la) ← linear_allocator.allocate (linear_of (scenario.concurrent_arena 4112)) 24;
     mret (b', concurrent_of la)) scenario.exhausted
  /\ concurrent_linear_allocator.deallocate (scenario.concurrent_arena 4112) (Block 4096 16)
       scenario.exhausted
     = (la ← linear_allocator.deallocate (linear_of (scenario.concurrent_arena 4112))
               (Block 4096 16);
        mret (concurrent_of la)) scenario.exhausted
  /\ concurrent_linear_allocator.reallocate (scenario.concurrent_arena 4112) (Block 4096 16) 24
       scenario.exhausted
     = ('(ok, b', la) ← linear_allocator.reallocate (linear_of (scenario.concurrent_arena 4112))
                          (Block 4096 16) 24;
        mret (ok, b', concurrent_of la)) scenario.exhausted.
Proof.
  apply (concurrent_call_alone_agrees_with_the_linear_arena
           (scenario.concurrent_arena 4112) (Block 4096 16) 24 scenario.exhausted).
  intros bp p w. reflexivity.
Defined.

(** * The free list as a stack of blocks *)


Section freelist_stack.
Context {_Allocator : Type} `{!Allocator _Allocator}.
Context `{!SupportsTruncatedDeallocation _Allocator}.
Context {_MaxNodeCount _BatchedAllocations : Z}.
Implicit Types (fl : freelist.t _Allocator _MaxNodeCount _BatchedAllocations).
Implicit Types (b : block) (w : world) (l : list Z).



End freelist_stack.


(** * The bucket of a size *)


(** * Further laws of the affix allocator *)

Section affix_blocks.
Context {_Allocator : Type} `{!Allocator _Allocator}.
Context {_Prefix _Suffix : affix}.
Implicit Types (aa : affix_allocator.t _Allocator _Prefix _Suffix) (b : block) (w : world).

Lemma toAffixedBlock_toStrippedBlock b :
  block_in_address_space b ->
  affix_allocator.prefix_size _Allocator _Prefix
    + affix_allocator.suffix_size _Allocator _Suffix <= size b ->
  affix_allocator.toAffixedBlock _Allocator _Prefix _Suffix
    (affix_allocator.toStrippedBlock _Allocator _Prefix _Suffix b) = b.
Proof.
  intros (Hptr & Hsize & Hspace) Hroom.
  pose proof (affix_size_range _Prefix) as Hprefix.
  pose proof (affix_size_range _Suffix) as Hsuffix.
  unfold affix_allocator.toAffixedBlock, affix_allocator.toStrippedBlock,
    affix_allocator.prefix_size, affix_allocator.suffix_size in *.
  set (p := affix_allocator.affix_size _Allocator _Prefix) in *.
  set (s := affix_allocator.affix_size _Allocator _Suffix) in *.
  cbn [ptr size].
  rewrite (to_size_t_small (size b - p)) by lia.
  rewrite (to_size_t_small (size b - p - s)) by lia.
  rewrite (to_size_t_small (ptr b + p)) by lia.
  rewrite (to_size_t_small (p + (size b - p - s))) by lia.
  rewrite (to_size_t_small (p + (size b - p - s) + s)) by lia.
  rewrite (to_size_t_small (ptr b + p - p)) by lia.
  destruct b as [bp bs]. cbn [ptr size]. f_equal; lia.
Qed.

(** The two views of a block are inverse to each other: stripping the
    affixes of a block that has room for them and putting them back gives
    the block, and so does putting affixes around a block that has the
    room for the prefix before it and stripping them. *)
Theorem affix_blocks_convert_back_and_forth b :
  block_in_address_space b ->
  (affix_allocator.prefix_size _Allocator _Prefix
     + affix_allocator.suffix_size _Allocator _Suffix <= size b ->
   affix_allocator.toAffixedBlock _Allocator _Prefix _Suffix
     (affix_allocator.toStrippedBlock _Allocator _Prefix _Suffix b) = b)
  /\ (affix_allocator.prefix_size _Allocator _Prefix <= ptr b ->
      size b + affix_allocator.prefix_size _Allocator _Prefix
        + affix_allocator.suffix_size _Allocator _Suffix < 2 ^ 64 ->
      affix_allocator.toStrippedBlock _Allocator _Prefix _Suffix
        (affix_allocator.toAffixedBlock _Allocator _Prefix _Suffix b) = b).
Proof.
  intros Hb. split; [now apply toAffixedBlock_toStrippedBlock|].
  destruct Hb as (Hptr & Hsize & Hspace). intros Hbefore Hroom.
  pose proof (affix_size_range _Prefix) as Hprefix.
  pose proof (affix_size_range _Suffix) as Hsuffix.
  unfold affix_allocator.toAffixedBlock, affix_allocator.toStrippedBlock,
    affix_allocator.prefix_size, affix_allocator.suffix_size in *.
  set (p := affix_allocator.affix_size _Allocator _Prefix) in *.
  set (s := affix_allocator.affix_size _Allocator _Suffix) in *.
  cbn [ptr size].
  rewrite (to_size_t_small (p + size b)) by lia.
  rewrite (to_size_t_small (p + size b + s)) by lia.
  rewrite (to_size_t_small (ptr b - p)) by lia.
  rewrite (to_size_t_small (p + size b + s - p)) by lia.
  rewrite (to_size_t_small (p + size b + s - p - s)) by lia.
  rewrite (to_size_t_small (ptr b - p + p)) by lia.
  destruct b as [bp bs]. cbn [ptr size]. f_equal; lia.
Qed.

(** What the affix allocator makes of a block of its inner allocator that
    has room for the affixes: the user's block starts after the prefix
    and ends before the suffix, the prefix starts the inner block and the
    suffix ends it, and [deallocate] gives the inner allocator back the
    very block that it had returned. *)
Theorem affix_deallocate_gives_back_the_block_of_the_inner_allocator aa n w ab a' w1 :
  allocate (affix_allocator.base aa)
    (to_size_t (to_size_t (affix_allocator.prefix_size _Allocator _Prefix + n)
                + affix_allocator.suffix_size _Allocator _Suffix)) w
  = Some (ab, a', w1) ->
  block_in_address_space ab ->
  affix_allocator.prefix_size _Allocator _Prefix
    + affix_allocator.suffix_size _Allocator _Suffix <= size ab ->
  exists sb,
    affix_allocator.allocate aa n w = Some (sb, affix_allocator.Affix a', w1)
    /\ ptr sb = ptr ab + affix_allocator.prefix_size _Allocator _Prefix
    /\ size sb = size ab - affix_allocator.prefix_size _Allocator _Prefix
                 - affix_allocator.suffix_size _Allocator _Suffix
    /\ affix_allocator.prefix _Allocator _Prefix sb = ptr ab
    /\ affix_allocator.suffix sb + affix_allocator.suffix_size _Allocator _Suffix
       = ptr ab + size ab
    /\ affix_allocator.deallocate (affix_allocator.Affix a' : affix_allocator.t _ _Prefix _Suffix)
         sb w1
       = (a'' ← deallocate a' ab;
          mret (affix_allocator.Affix a'' : affix_allocator.t _ _Prefix _Suffix)) w1.
Proof.
  intros Hrun Hb Hroom.
  exists (affix_allocator.toStrippedBlock _Allocator _Prefix _Suffix ab).
  split; [|split; [|split; [|split; [|split]]]].
  - unfold affix_allocator.allocate, mbind, M_bind. rewrite Hrun. reflexivity.
  - destruct Hb as (Hptr & Hsize & Hspace).
    pose proof (affix_size_range _Prefix) as Hprefix.
    pose proof (affix_size_range _Suffix) as Hsuffix.
    unfold affix_allocator.toStrippedBlock, affix_allocator.prefix_size,
      affix_allocator.suffix_size in *. cbn [ptr]. apply to_size_t_small. lia.
  - destruct Hb as (Hptr & Hsize & Hspace).
    pose proof (affix_size_range _Prefix) as Hprefix.
    pose proof (affix_size_range _Suffix) as Hsuffix.
    unfold affix_allocator.toStrippedBlock, affix_allocator.prefix_size,
      affix_allocator.suffix_size in *. cbn [size].
    rewrite (to_size_t_small (size ab - _)) by lia. apply to_size_t_small. lia.
  - pose proof (toAffixedBlock_toStrippedBlock ab Hb Hroom) as Hback.
    apply (f_equal ptr) in Hback. exact Hback.
  - destruct Hb as (Hptr & Hsize & Hspace).
    pose proof (affix_size_range _Prefix) as Hprefix.
    pose proof (affix_size_range _Suffix) as Hsuffix.
    unfold affix_allocator.suffix, affix_allocator.toStrippedBlock,
      affix_allocator.prefix_size, affix_allocator.suffix_size in *. cbn [ptr size].
    rewrite (to_size_t_small (size ab - affix_allocator.affix_size _Allocator _Prefix)) by lia.
    rewrite (to_size_t_small (size ab - _ - _)) by lia.
    rewrite (to_size_t_small (ptr ab + _)) by lia.
    rewrite to_size_t_small by lia. lia.
  - unfold affix_allocator.deallocate.
    rewrite (toAffixedBlock_toStrippedBlock ab Hb Hroom). reflexivity.
Qed.

End affix_blocks.

(** A header of 8 bytes before the blocks of the arena of 128 bytes at
    address 4096: the block of 32 bytes at the start of the arena and the
    24 bytes of it that the user sees. *)
Lemma affix_blocks_convert_back_and_forth_witness :
  (affix_allocator.prefix_size (stack_linear_allocator 128 8) (affix_of_size 8)
     + affix_allocator.suffix_size (stack_linear_allocator 128 8) no_affix
     <= size (Block 4104 24) ->
   affix_allocator.toAffixedBlock (stack_linear_allocator 128 8) (affix_of_size 8) no_affix
     (affix_allocator.toStrippedBlock (stack_linear_allocator 128 8) (affix_of_size 8) no_affix
        (Block 4104 24))
   = Block 4104 24)
  /\ (affix_allocator.prefix_size (stack_linear_allocator 128 8) (affix_of_size 8)
        <= ptr (Block 4104 24) ->
      size (Block 4104 24)
        + affix_allocator.prefix_size (stack_linear_allocator 128 8) (affix_of_size 8)
        + affix_allocator.suffix_size (stack_linear_allocator 128 8) no_affix < 2 ^ 64 ->
      affix_allocator.toStrippedBlock (stack_linear_allocator 128 8) (affix_of_size 8) no_affix
        (affix_allocator.toAffixedBlock (stack_linear_allocator 128 8) (affix_of_size 8)
           no_affix (Block 4104 24))
      = Block 4104 24).
Proof.
  apply (affix_blocks_convert_back_and_forth (Block 4104 24)). evaluate.
Defined.

Lemma affix_deallocate_gives_back_the_block_of_the_inner_allocator_witness :
  exists sb,
    affix_allocator.allocate
      (affix_allocator.Affix (scenario.stack_arena 128 4096 4096)
       : affix_allocator.t _ (affix_of_size 8) no_affix) 24 scenario.exhausted
    = Some (sb, affix_allocator.Affix (scenario.stack_arena 128 4096 4128), scenario.exhausted)
    /\ ptr sb = ptr (Block 4096 32)
                + affix_allocator.prefix_size (stack_linear_allocator 128 8) (affix_of_size 8)
    /\ size sb = size (Block 4096 32)
                 - affix_allocator.prefix_size (stack_linear_allocator 128 8) (affix_of_size 8)
                 - affix_allocator.suffix_size (stack_linear_allocator 128 8) no_affix
    /\ affix_allocator.prefix (stack_linear_allocator 128 8) (affix_of_size 8) sb
       = ptr (Block 4096 32)
    /\ affix_allocator.suffix sb
       + affix_allocator.suffix_size (stack_linear_allocator 128 8) no_affix
       = ptr (Block 4096 32) + size (Block 4096 32)
    /\ affix_allocator.deallocate
         (affix_allocator.Affix (scenario.stack_arena 128 4096 4128)
          : affix_allocator.t _ (affix_of_size 8) no_affix) sb scenario.exhausted
       = (a'' ← deallocate (scenario.stack_arena 128 4096 4128) (Block 4096 32);
          mret (affix_allocator.Affix a'' : affix_allocator.t _ (affix_of_size 8) no_affix))
           scenario.exhausted.
Proof.
  apply (affix_deallocate_gives_back_the_block_of_the_inner_allocator
           (affix_allocator.Affix (scenario.stack_arena 128 4096 4096)
            : affix_allocator.t _ (affix_of_size 8) no_affix) 24 scenario.exhausted
           (Block 4096 32) (scenario.stack_arena 128 4096 4128) scenario.exhausted);
    evaluate.
Defined.

(** * Further laws of the cascading allocator *)

Section cascade_routing.
Context {_Allocator : Type} `{!Allocator _Allocator} `{!Owns _Allocator}.
Context {sizeof_node : Z}.
Implicit Types (ca : cascading_allocator.t _Allocator sizeof_node) (b : block) (w : world).
Implicit Types (ns : list (cascading_allocator.node _Allocator)).

Lemma findOwningNode_loop_without_owner ns b :
  Forall (fun n => owns (cascading_allocator.allocator_ n) b = false) ns ->
  cascading_allocator.findOwningNode_loop ns b = None.
Proof.
  induction 1 as [|n ns Hn _ IH]; [reflexivity|].
  cbn [cascading_allocator.findOwningNode_loop]. rewrite Hn, IH. reflexivity.
Qed.

Lemma findOwningNode_loop_first_owner ns b (i : nat) n :
  ns !! i = Some n ->
  owns (cascading_allocator.allocator_ n) b = true ->
  (forall (j : nat) m, (j < i)%nat -> ns !! j = Some m ->
                       owns (cascading_allocator.allocator_ m) b = false) ->
  cascading_allocator.findOwningNode_loop ns b = Some i.
Proof.
  revert i. induction ns as [|m ns IH]; intros i Hi Hown Hfirst; [discriminate|].
  cbn [cascading_allocator.findOwningNode_loop]. destruct i as [|i].
  - injection Hi as ->. rewrite Hown. reflexivity.
  - rewrite (Hfirst 0%nat m) by (lia || reflexivity).
    rewrite (IH i); [reflexivity|exact Hi|exact Hown|].
    intros j m' Hj Hm'. apply (Hfirst (S j) m'); [lia|exact Hm'].
Qed.

(** [deallocate] goes to the first node, from the head, whose allocator
    owns the block, and changes the allocator of that node alone; a block
    that no node owns is not owned by the cascade, and its deallocation
    changes nothing. *)
Theorem cascading_deallocate_goes_to_the_first_owner ca b w :
  (Forall (fun n => owns (cascading_allocator.allocator_ n) b = false)
     (cascading_allocator.nodes ca) ->
   cascading_allocator.owns ca b = false
   /\ cascading_allocator.deallocate ca b w = Some (ca, w))
  /\ (forall (i : nat) n,
        cascading_allocator.nodes ca !! i = Some n ->
        owns (cascading_allocator.allocator_ n) b = true ->
        (forall (j : nat) m, (j < i)%nat -> cascading_allocator.nodes ca !! j = Some m ->
                             owns (cascading_allocator.allocator_ m) b = false) ->
        cascading_allocator.owns ca b = true
        /\ cascading_allocator.deallocate ca b w
           = (a ← deallocate (cascading_allocator.allocator_ n) b;
              mret (cascading_allocator.Cascade
                      (<[i := cascading_allocator.Node a (cascading_allocator.address n)]>
                         (cascading_allocator.nodes ca))
                      (cascading_allocator.nodeAllocatedSize_ ca))) w).
Proof.
  split.
  - intros Hnone.
    unfold cascading_allocator.owns, cascading_allocator.deallocate,
      cascading_allocator.findOwningNode.
    rewrite findOwningNode_loop_without_owner by exact Hnone. split; reflexivity.
  - intros i n Hi Hown Hfirst.
    unfold cascading_allocator.owns, cascading_allocator.deallocate,
      cascading_allocator.findOwningNode.
    rewrite (findOwningNode_loop_first_owner _ b i n Hi Hown Hfirst).
    split; [reflexivity|].
    unfold cascading_allocator.node_deallocate. rewrite Hi. reflexivity.
Qed.

End cascade_routing.

Section cascade_growth.
Context {_Allocator : Type} `{!Allocator _Allocator}.
Context `{!DefaultConstructible _Allocator} `{!Destructible _Allocator}.
Context {sizeof_node : Z}.
Implicit Types (ca : cascading_allocator.t _Allocator sizeof_node) (b : block) (w : world).

Lemma allocateNoGrow_loop_keeps_the_nodes_in_place
    (ns : list (cascading_allocator.node _Allocator)) (b0 : block) (n : Z) w b ns' w' :
  cascading_allocator.allocateNoGrow_loop b0 ns n w = Some (b, ns', w') ->
  map cascading_allocator.address ns' = map cascading_allocator.address ns.
Proof.
  revert b0 b ns' w w'. induction ns as [|node ns IH]; intros b0 b ns' w w' Hrun.
  - injection Hrun as _ <- _. reflexivity.
  - cbn [cascading_allocator.allocateNoGrow_loop] in Hrun.
    unfold mbind at 1, M_bind at 1 in Hrun.
    destruct (allocate (cascading_allocator.allocator_ node) n w) as [[[b1 a1] w1]|];
      [|discriminate].
    destruct (negb (ptr b1 =? 0)).
    + injection Hrun as _ <- _. reflexivity.
    + unfold mbind, M_bind in Hrun.
      destruct (cascading_allocator.allocateNoGrow_loop b1 ns n w1) as [[[b2 ns2] w2]|] eqn:Hrest;
        [|discriminate].
      injection Hrun as _ <- _. cbn [map cascading_allocator.address].
      f_equal. exact (IH _ _ _ _ _ Hrest).
Qed.

(** [allocate] never moves or drops a node: the nodes stay where they
    are, and at most one node is added, in front of them. *)
Theorem cascading_allocate_adds_at_most_one_node ca n w b ca' w' :
  cascading_allocator.allocate ca n w = Some (b, ca', w') ->
  map cascading_allocator.address (cascading_allocator.nodes ca')
  = map cascading_allocator.address (cascading_allocator.nodes ca)
  \/ exists p,
       p <> 0
       /\ map cascading_allocator.address (cascading_allocator.nodes ca')
          = p :: map cascading_allocator.address (cascading_allocator.nodes ca).
Proof.
  intros Hrun.
  unfold cascading_allocator.allocate, cascading_allocator.allocateNoGrow in Hrun.
  unfold mbind, M_bind in Hrun.
  destruct (cascading_allocator.allocateNoGrow_loop (Block 0 0) (cascading_allocator.nodes ca)
              n w) as [[[b1 ns1] w1]|] eqn:Hloop; [|discriminate].
  apply allocateNoGrow_loop_keeps_the_nodes_in_place in Hloop.
  unfold mret, M_ret in Hrun.
  destruct (negb (ptr b1 =? 0)).
  - injection Hrun as _ <- _. left. exact Hloop.
  - unfold cascading_allocator.prependNode, cascading_allocator.createNode,
      mbind, M_bind, mret, M_ret in Hrun.
    destruct (construct _Allocator w1) as [[a0 w2]|]; [|discriminate].
    destruct (allocate a0 sizeof_node w2) as [[[nodeBlock a1] w3]|]; [|discriminate].
    destruct (Z.eqb_spec (ptr nodeBlock) 0) as [E|E].
    + destruct (destroy a1 w3) as [[[] w4]|]; [|discriminate].
      injection Hrun as _ <- _. left. exact Hloop.
    + destruct (assert _ w3) as [[[] w4]|]; [|discriminate].
      unfold cascading_allocator.node_allocate in Hrun.
      cbn [cascading_allocator.nodes lookup list_lookup cascading_allocator.allocator_
           cascading_allocator.address] in Hrun.
      unfold mbind, M_bind in Hrun.
      destruct (allocate a1 n w4) as [[[b2 a2] w5]|]; [|discriminate].
      injection Hrun as _ <- _. right. exists (ptr nodeBlock). split; [exact E|].
      cbn [cascading_allocator.nodes list_insert map cascading_allocator.address].
      f_equal. exact Hloop.
Qed.

End cascade_growth.

(** The first allocation of the cascade of the specification's scenario
    adds its first node, at the start of the buffer that the heap
    answers. *)
Lemma cascading_allocate_adds_at_most_one_node_witness :
  map cascading_allocator.address
    (cascading_allocator.nodes
       (cascading_allocator.Cascade [scenario.node_at 65536 66464] 24 : scenario.cascade))
  = map cascading_allocator.address (cascading_allocator.nodes scenario.no_nodes)
  \/ exists p,
       p <> 0
       /\ map cascading_allocator.address
            (cascading_allocator.nodes
               (cascading_allocator.Cascade [scenario.node_at 65536 66464] 24
                : scenario.cascade))
          = p :: map cascading_allocator.address (cascading_allocator.nodes scenario.no_nodes).
Proof.
  apply (cascading_allocate_adds_at_most_one_node scenario.no_nodes 900
           (scenario.heap_answering [65536]) (Block 65560 904)
           (cascading_allocator.Cascade [scenario.node_at 65536 66464] 24)
           (World [] [call_malloc 1024 65536] ∅)).
  vm_compute. reflexivity.
Defined.

Section cascade_destruction.
Context {_BufferSize _Alignment sizeof_node : Z} {_InitMode : BufferInitMode}.
Implicit Types
  (ca : cascading_allocator.t
          (heap_linear_allocator _BufferSize _Alignment _InitMode mallocator.t) sizeof_node)
  (w : world).

(** The destructor of a cascade of linear arenas on the heap erases every
    node, which frees the buffer of every arena, once, the last node
    first, and calls nothing else: of what the program held of the heap,
    the buffers of the nodes are gone and the rest is held as before. *)
Theorem cascading_destruction_frees_every_buffer ca w :
  Forall has_its_buffer (cascading_allocator.nodes ca) ->
  exists w',
    cascading_allocator.eraseAllNodes ca w
    = Some (cascading_allocator.Cascade [] (cascading_allocator.nodeAllocatedSize_ ca), w')
    /\ answers w' = answers w
    /\ memory w' = memory w
    /\ calls w' = map (fun n => call_free (buffer_of n)) (cascading_allocator.nodes ca)
                  ++ calls w
    /\ (forall others,
          held_pointers (calls w)
            ≡ₚ map buffer_of (cascading_allocator.nodes ca) ++ others ->
          held_pointers (calls w') ≡ₚ others).
Proof.
  intros Hnodes.
  assert (Hlive : Forall (fun n : cascading_allocator.node
                                    (heap_linear_allocator _BufferSize _Alignment _InitMode
                                       mallocator.t) => buffer_of n <> 0)
                    (cascading_allocator.nodes ca)).
  { eapply Forall_impl; [exact Hnodes|]. cbn. intros n [Hn _]. lia. }
  eexists. split; [|split; [|split; [|split]]].
  - unfold cascading_allocator.eraseAllNodes, mbind, M_bind.
    rewrite eraseNode_frees_every_buffer by exact Hlive. reflexivity.
  - reflexivity.
  - reflexivity.
  - reflexivity.
  - intros others Hheld. cbn [calls].
    rewrite <- (map_map buffer_of call_free).
    now apply held_pointers_after_frees.
Qed.

End cascade_destruction.

(** The cascade of three arenas of the specification's scenario holds the
    three buffers it has taken; its destruction frees the three. *)
Lemma cascading_destruction_frees_every_buffer_witness :
  exists w',
    cascading_allocator.eraseAllNodes scenario.three_nodes scenario.three_buffers
    = Some (cascading_allocator.Cascade [] 24, w')
    /\ calls w' = [call_free 196608; call_free 131072; call_free 65536]
                  ++ calls scenario.three_buffers
    /\ held_pointers (calls scenario.three_buffers) = [196608; 131072; 65536]
    /\ held_pointers (calls w') ≡ₚ [].
Proof.
  destruct (cascading_destruction_frees_every_buffer scenario.three_nodes
              scenario.three_buffers ltac:(repeat constructor))
    as (w' & Hrun & _ & _ & Hcalls & Hheld).
  exists w'. split; [exact Hrun|]. split; [exact Hcalls|]. split; [reflexivity|].
  apply Hheld. reflexivity.
Defined.

(** * The fallback from an arena to the heap *)

Section arena_with_heap_fallback.
Context {_BufferSize _Alignment : Z}.
Implicit Types
  (fa : fallback_allocator.t (stack_linear_allocator _BufferSize _Alignment) mallocator.t)
  (b : block) (w : world).


(** When the arena cannot grow its last block, [reallocate] moves the
    block to the heap: one [malloc] of the new size, the bytes copied,
    and the arena rewound to the base of the block.  When [malloc] fails
    too, the call answers [false] and the block and the arena are as
    before. *)
Theorem fallback_reallocate_moves_the_block_to_the_heap fa b newSize p rest cs mem :
  0 < _Alignment ->
  0 < newSize ->
  newSize + _Alignment <= 2 ^ 64 ->
  block_in_address_space b ->
  ptr b <> 0 ->
  linear_allocator.owns (fallback_allocator.primary fa) b = true ->
  ptr b + size b = linear_allocator.p_ (fallback_allocator.primary fa) ->
  size b <> round_to_alignment newSize _Alignment ->
  size b <> round_to_alignment newSize (Z.max _Alignment mallocator.alignment) ->
  linear_allocator.end_ (fallback_allocator.primary fa)
    < ptr b + round_to_alignment newSize _Alignment < 2 ^ 64 ->
  fallback_allocator.reallocate fa b newSize (World (p :: rest) cs mem)
  = if p =? 0
    then Some (false, b, fa, World rest (call_malloc newSize 0 :: cs) mem)
    else Some (true, Block p newSize,
               fallback_allocator.Fallback
                 (linear_allocator.Linear
                    (linear_allocator.provider (fallback_allocator.primary fa)) (ptr b))
                 (fallback_allocator.fallback fa),
               World rest
                 (call_memcpy p (ptr b) (Z.min newSize (size b)) :: call_malloc newSize p :: cs)
                 mem).
Proof.
  intros Hal Hnew Hfit (Hptr & Hsize & Hspace) Hnonnull Hown Hlast Hsame Hsame' Hfull.
  destruct (round_to_alignment_spec newSize _Alignment Hal ltac:(lia) Hfit) as [Hround _].
  destruct fa as [la []]. cbn [fallback_allocator.primary fallback_allocator.fallback] in *.
  unfold fallback_allocator.reallocate.
  rewrite bind_handle_common_reallocation_cases_declines.
  2:{ unfold fast_path_applies.
      cbn [alignment fallback_allocator.allocator]. unfold fallback_allocator.alignment.
      cbn [alignment linear_allocator.allocator mallocator.allocator].
      unfold linear_allocator.alignment.
      destruct (Z.eqb_spec (size b)
                  (round_to_alignment newSize (Z.max _Alignment mallocator.alignment)));
        [contradiction|].
      destruct (Z.eqb_spec newSize 0); [lia|].
      destruct (Z.eqb_spec (ptr b) 0); [contradiction|]. reflexivity. }
  cbv beta iota. cbn [fallback_allocator.primary fallback_allocator.fallback].
  change (owns la b) with (linear_allocator.owns la b). rewrite Hown.
  change (reallocate la b newSize) with (linear_allocator.reallocate la b newSize).
  unfold linear_allocator.reallocate.
  match goal with
  | |- (?m ≫= ?k) ?w = _ =>
      change ((m ≫= k) w) with (match m w with Some (x, w') => k x w' | None => None end)
  end.
  rewrite bind_handle_common_reallocation_cases_declines.
  2:{ unfold fast_path_applies. cbn [alignment linear_allocator.allocator].
      unfold linear_allocator.alignment.
      destruct (Z.eqb_spec (size b) (round_to_alignment newSize _Alignment)); [contradiction|].
      destruct (Z.eqb_spec newSize 0); [lia|].
      destruct (Z.eqb_spec (ptr b) 0); [contradiction|]. reflexivity. }
  cbv beta iota.
  unfold linear_allocator.isLastAllocatedBlock, linear_allocator.align,
    linear_allocator.alignment.
  rewrite (to_size_t_small (ptr b + size b)) by lia. rewrite Hlast, Z.eqb_refl.
  rewrite (to_size_t_small (ptr b + round_to_alignment newSize _Alignment)) by lia.
  destruct (Z.leb_spec (ptr b + round_to_alignment newSize _Alignment)
              (linear_allocator.end_ la)); [lia|].
  unfold mret at 1, M_ret at 1. cbv beta iota.
  unfold reallocate_and_copy, fallback_allocator.fallback_allocate,
    fallback_allocator.primary_deallocate.
  cbn [fallback_allocator.primary fallback_allocator.fallback allocate deallocate
       mallocator.allocator linear_allocator.allocator].
  unfold mallocator.allocate, malloc, next_answer, record_call, copy_block, memcpy,
    linear_allocator.deallocate, linear_allocator.isLastAllocatedBlock,
    mbind, M_bind, mret, M_ret.
  cbn [answers calls memory ptr size].
  destruct (Z.eqb_spec p 0) as [->|E]; [reflexivity|].
  cbn [fallback_allocator.primary linear_allocator.p_ linear_allocator.provider].
  rewrite (to_size_t_small (ptr b + size b)) by lia. rewrite Hlast, Z.eqb_refl.
  reflexivity.
Qed.

End arena_with_heap_fallback.

(** The arena of 128 bytes at address 4096 holds one block of 104 bytes;
    grown to 200 bytes it moves to the block that the heap answers at
    65536. *)
Lemma fallback_reallocate_moves_the_block_to_the_heap_witness :
  fallback_allocator.reallocate
    (fallback_allocator.Fallback (scenario.stack_arena 128 4096 4200) mallocator.mallocator)
    (Block 4096 104) 200 (World [65536] [] ∅)
  = if 65536 =? 0
    then Some (false, Block 4096 104,
               fallback_allocator.Fallback (scenario.stack_arena 128 4096 4200)
                 mallocator.mallocator,
               World [] [call_malloc 200 0] ∅)
    else Some (true, Block 65536 200,
               fallback_allocator.Fallback
                 (linear_allocator.Linear
                    (linear_allocator.provider
                       (fallback_allocator.primary
                          (fallback_allocator.Fallback (scenario.stack_arena 128 4096 4200)
                             mallocator.mallocator)))
                    (ptr (Block 4096 104)))
                 (fallback_allocator.fallback
                    (fallback_allocator.Fallback (scenario.stack_arena 128 4096 4200)
                       mallocator.mallocator)),
               World []
                 [call_memcpy 65536 (ptr (Block 4096 104)) (Z.min 200 (size (Block 4096 104)));
                  call_malloc 200 65536] ∅).
Proof.
  apply (fallback_reallocate_moves_the_block_to_the_heap
           (fallback_allocator.Fallback (scenario.stack_arena 128 4096 4200)
              mallocator.mallocator)
           (Block 4096 104) 200 65536 [] [] ∅); evaluate.
Defined.

(** * The ranges of the buckets *)

Section bucket_ranges.
Context {_Allocator : Type} `{!Allocator _Allocator}.
Context `{!SupportsTruncatedDeallocation _Allocator}.
Context {_MaxNodeCount _BatchedAllocations : Z}.
Context {_Min _Max _Step : Z}.
Implicit Types (fl : freelist.t _Allocator _MaxNodeCount _BatchedAllocations) (w : world).

(** The loop of the constructor over buckets that are free lists, for the
    linear raider: bucket [i + k] gets the sizes of step [k] from the
    current minimum on, the first size of the step left out but for
    bucket 0. *)
Lemma setBucketRanges_gives_each_bucket_its_step
    (fls : list (freelist.t _Allocator _MaxNodeCount _BatchedAllocations)) (i cur : Z) w :
  0 <= i -> 0 <= cur -> 0 < _Step ->
  freelist.sizeof_node <= cur + _Step ->
  cur + Z.of_nat (length fls) * _Step < 2 ^ 64 ->
  exists r,
    bucketizer.setBucketRanges (_RangeRaider := linear_range_raider.t _Min _Max _Step)
      fls i cur w = Some (r, w)
    /\ forall (k : nat) fl,
         fls !! k = Some fl ->
         exists fl',
           r !! k = Some fl'
           /\ freelist.min_size fl'
              = cur + Z.of_nat k * _Step + (if i + Z.of_nat k =? 0 then 0 else 1)
           /\ freelist.max_size fl' = cur + (Z.of_nat k + 1) * _Step.
Proof.
  revert i cur. induction fls as [|fl0 fls IH]; intros i cur Hi Hcur Hstep Hnode Hfit.
  - exists []. split; [reflexivity|]. intros k fl Hk. discriminate.
  - cbn [length] in Hfit. rewrite Nat2Z.inj_succ in Hfit.
    destruct (IH (i + 1) (cur + _Step) ltac:(lia) ltac:(lia) Hstep ltac:(lia) ltac:(lia))
      as (r & Hrun & Hr).
    cbn [bucketizer.setBucketRanges].
    cbn [step_size linear_range_raider.raider_of]. unfold linear_range_raider.step_size.
    change (setMinMax fl0) with (freelist.setMinMax fl0).
    unfold freelist.setMinMax, assert, mbind, M_bind, mret, M_ret.
    rewrite (to_size_t_small (cur + _Step)) by lia.
    rewrite (to_size_t_small (cur + (if i =? 0 then 0 else 1)))
      by (destruct (i =? 0); lia).
    destruct (Z.geb_spec (cur + _Step) freelist.sizeof_node) as [_|Hlow]; [|lia].
    unfold mbind, M_bind, mret, M_ret in Hrun. rewrite Hrun.
    eexists. split; [reflexivity|].
    intros k fl Hk. destruct k as [|k].
    + eexists. split; [reflexivity|]. cbn [freelist.min_size freelist.max_size].
      change (Z.of_nat 0) with 0.
      replace (i + 0) with i by lia. split; lia.
    + cbn [lookup list_lookup] in Hk. destruct (Hr k fl Hk) as (fl' & Hlook & Hmin & Hmax).
      exists fl'. split; [exact Hlook|]. rewrite Hmin, Hmax, Nat2Z.inj_succ.
      replace (i + 1 + Z.of_nat k) with (i + Z.succ (Z.of_nat k)) by lia.
      split; lia.
Qed.

(** The constructor gives the buckets ranges that do not agree with the
    index of the linear raider on the sizes that lie on a step: the
    bucket that [step_index] names for a size of the range has the size
    in its own range, but for the sizes [min + k * step] with [k > 0],
    which are one below the range of their bucket. *)
Theorem linear_buckets_miss_the_sizes_on_a_step
    (fls : list (freelist.t _Allocator _MaxNodeCount _BatchedAllocations)) w :
  0 <= _Min -> 0 < _Step -> _Min < _Max -> _Max < 2 ^ 64 ->
  (_Max - _Min) mod _Step = 0 ->
  freelist.sizeof_node <= _Min + _Step ->
  Z.of_nat (length fls) = num_steps (linear_range_raider.t _Min _Max _Step) ->
  exists r,
    bucketizer.setBucketRanges (_RangeRaider := linear_range_raider.t _Min _Max _Step)
      fls 0 _Min w = Some (r, w)
    /\ forall n,
         _Min <= n < _Max ->
         exists fl,
           r !! Z.to_nat (bucketizer.bucketIndex (linear_range_raider.t _Min _Max _Step) n)
           = Some fl
           /\ (freelist.isGoodSize fl n = true
               <-> n = _Min \/ (n - _Min) mod _Step <> 0).
Proof.
  intros Hmin Hstep Hrange Hmax Hdiv Hnode Hlen.
  cbn [num_steps linear_range_raider.raider_of] in Hlen.
  unfold linear_range_raider.num_steps in Hlen.
  rewrite to_size_t_small in Hlen by lia.
  pose proof (Z_div_exact_full_2 (_Max - _Min) _Step ltac:(lia) Hdiv) as Hexact.
  destruct (setBucketRanges_gives_each_bucket_its_step fls 0 _Min w ltac:(lia) Hmin Hstep Hnode
              ltac:(rewrite Hlen; lia)) as (r & Hrun & Hr).
  exists r. split; [exact Hrun|]. intros n Hn.
  unfold bucketizer.bucketIndex. cbn [step_index linear_range_raider.raider_of].
  unfold linear_range_raider.step_index, range_t.is_in_range.
  destruct (Z.leb_spec _Min n); [|lia]. destruct (Z.leb_spec n _Max); [|lia]. cbn [andb].
  rewrite to_size_t_small by lia.
  pose proof (Z.div_mod (n - _Min) _Step ltac:(lia)) as Hdm.
  pose proof (Z.mod_pos_bound (n - _Min) _Step Hstep) as Hbound.
  set (k := (n - _Min) / _Step) in *.
  assert (Hk : 0 <= k < Z.of_nat (length fls)).
  { split; [apply Z.div_pos; lia|]. rewrite Hlen.
    apply Z.div_lt_upper_bound; [lia|]. lia. }
  destruct (lookup_lt_is_Some_2 fls (Z.to_nat k) ltac:(lia)) as [fl0 Hfl0].
  destruct (Hr (Z.to_nat k) fl0 Hfl0) as (fl & Hlook & Hflmin & Hflmax).
  rewrite Z2Nat.id in Hflmin, Hflmax by lia.
  exists fl. split; [exact Hlook|].
  unfold freelist.isGoodSize. rewrite Hflmin, Hflmax. replace (0 + k) with k by lia.
  rewrite andb_true_iff, !Z.leb_le.
  destruct (Z.eqb_spec k 0) as [Hzero|Hpos]; split; intros Hgood; lia.
Qed.

End bucket_ranges.

(** Seven buckets for the sizes from 8 to 64 in steps of 8: a size of 24
    bytes goes to the bucket of index 2, whose range starts at 25. *)
Lemma linear_buckets_miss_the_sizes_on_a_step_witness :
  exists r,
    bucketizer.setBucketRanges (_RangeRaider := linear_range_raider.t 8 64 8)
      (bucketizer.buckets_ scenario.linear_buckets) 0 8 scenario.exhausted
    = Some (r, scenario.exhausted)
    /\ forall n,
         8 <= n < 64 ->
         exists fl,
           r !! Z.to_nat (bucketizer.bucketIndex (linear_range_raider.t 8 64 8) n) = Some fl
           /\ (freelist.isGoodSize fl n = true <-> n = 8 \/ (n - 8) mod 8 <> 0).
Proof.
  apply (linear_buckets_miss_the_sizes_on_a_step
           (bucketizer.buckets_ scenario.linear_buckets) scenario.exhausted); evaluate.
Defined.
